(** * Telepresence: the proxy-method plumbing of [connect] and [local]

    A shallow embedding of [telepresence/connect/__init__.py] and
    [telepresence/local.py].  The Python code is a straight-line script over
    an ambient [Runner]; it is modelled here as a state-and-error monad whose
    state records every call made to the outside world (the trace), the
    cleanup registry, the wall clock and the counters of the oracles that
    stand for the outside world.

    Conventions of the model:
    - [time()] is an integer clock in milliseconds; it moves when a
      [check_call] runs (by the duration the oracle gives that call) and
      when the program sleeps, and stands still otherwise;
    - [runner.depend], [runner.require], [runner.require_sudo],
      [runner.get_output], [runner.check_call], [ssh.wait],
      [expose_local_services] and [connect_sshuttle] may fail, as the oracle
      says; [runner.launch], [Popen], [open], [os.chmod], [os.listdir] and
      [runner.make_temp] return;
    - the exceptions keep their Python names; [raise runner.fail(msg)] is
      [Fail msg]. *)

From Stdlib Require Import ZArith NArith Ascii String List DecimalString.
From stdpp Require Import base option list strings gmap.
From Equations Require Import Equations.

Local Open Scope string_scope.
Local Open Scope list_scope.

(** ** Python strings *)

Module PyStr.

(** [str(n)] for a non-negative integer. *)
Definition str (n : N) : string := NilEmpty.string_of_uint (N.to_uint n).

Definition ascii_eqb (a b : ascii) : bool := Ascii.eqb a b.

(** [s.split(sep)] for a one-character separator: [n] separators give
    [n + 1] fields, the empty string gives one empty field. *)
Fixpoint split (sep : ascii) (s : string) : list string :=
  match s with
  | EmptyString => [EmptyString]
  | String c rest =>
      if ascii_eqb c sep then EmptyString :: split sep rest
      else match split sep rest with
           | field :: fields => String c field :: fields
           | [] => [String c EmptyString]
           end
  end.

(** [sep.join(l)]. *)
Fixpoint join (sep : string) (l : list string) : string :=
  match l with
  | [] => EmptyString
  | [x] => x
  | x :: rest => x +:+ sep +:+ join sep rest
  end.

(** [template.format(a1, ..., an)] for templates whose only replacement fields
    are the automatic [{}]: the k-th field takes the k-th argument.
    Python raises IndexError when the arguments run out, hence [option]. *)
Fixpoint format (template : string) (args : list string) : option string :=
  match template with
  | EmptyString => Some EmptyString
  | String c rest =>
      match rest with
      | String c' rest' =>
          if (ascii_eqb c "{" && ascii_eqb c' "}")%bool then
            match args with
            | a :: args' => (fun r => a +:+ r) <$> format rest' args'
            | [] => None
            end
          else String c <$> format rest args
      | EmptyString => String c <$> format rest args
      end
  end.

(** The call sites below all pass as many arguments as the template has
    fields; [format_] is [format] with the impossible failure flattened. *)
Definition format_ (template : string) (args : list string) : string :=
  default EmptyString (format template args).

Definition startswith_slash (s : string) : bool :=
  match s with String "/" _ => true | _ => false end.

Fixpoint endswith_slash (s : string) : bool :=
  match s with
  | EmptyString => false
  | String c EmptyString => ascii_eqb c "/"
  | String _ rest => endswith_slash rest
  end.

(** [os.path.join(a, b)] of posixpath. *)
Definition path_join (a b : string) : string :=
  if startswith_slash b then b
  else if (String.eqb a EmptyString || endswith_slash a)%bool then a +:+ b
  else a +:+ "/" +:+ b.

(** [x in l] on a list of strings. *)
Definition mem (x : string) (l : list string) : bool :=
  existsb (String.eqb x) l.

End PyStr.

(** ** The one regular expression of the program

    [re.findall(r"(\d+\.\d+\.\d+\.\d+)", text)].  The pattern is a sequence
    of atoms, each a single character class or a greedy [+] over one; the
    matcher backtracks as Python's does.  With one group spanning the whole
    pattern, [findall] returns the matched texts, leftmost first and
    non-overlapping.  [\d] is taken over ASCII, the alphabet of the tool
    output the program parses. *)

Module Re.

Inductive atom : Type :=
| One (cls : ascii -> bool)
| Plus (cls : ascii -> bool).

Definition digit (c : ascii) : bool :=
  let n := nat_of_ascii c in (48 <=? n)%nat && (n <=? 57)%nat.

Definition dot (c : ascii) : bool := Ascii.eqb c ".".

(** [k] is the continuation: it receives what is left of the text and
    answers with the length of the rest of the match, if any. *)
Fixpoint match_plus (cls : ascii -> bool) (k : string -> option nat)
    (s : string) : option nat :=
  match s with
  | EmptyString => None
  | String c rest =>
      if cls c then
        match match_plus cls k rest with
        | Some n => Some (S n)
        | None => S <$> k rest
        end
      else None
  end.

Definition match_one (cls : ascii -> bool) (k : string -> option nat)
    (s : string) : option nat :=
  match s with
  | EmptyString => None
  | String c rest => if cls c then S <$> k rest else None
  end.

(** Length of the match of the pattern anchored at the start of [s]. *)
Fixpoint match_here (pat : list atom) (s : string) : option nat :=
  match pat with
  | [] => Some 0%nat
  | One cls :: pat' => match_one cls (match_here pat') s
  | Plus cls :: pat' => match_plus cls (match_here pat') s
  end.

Fixpoint take (n : nat) (s : string) : string :=
  match n, s with
  | S n', String c rest => String c (take n' rest)
  | _, _ => EmptyString
  end.

(** [skip] characters still belong to the previous match. *)
Fixpoint findall_from (pat : list atom) (skip : nat) (s : string)
    : list string :=
  match s with
  | EmptyString => []
  | String _ rest =>
      match skip with
      | S skip' => findall_from pat skip' rest
      | O =>
          match match_here pat s with
          | Some (S n) => take (S n) s :: findall_from pat n rest
          | _ => findall_from pat 0 rest
          end
      end
  end.

Definition findall (pat : list atom) (s : string) : list string :=
  findall_from pat 0 s.

(** [r"(\d+\.\d+\.\d+\.\d+)"] *)
Definition ipv4 : list atom :=
  [Plus digit; One dot; Plus digit; One dot; Plus digit; One dot; Plus digit].

End Re.

(** ** The outside world

    Everything [connect] and [local] reach through [runner], [os], [shutil],
    [subprocess], [time] and the sibling modules of the package is an oracle
    of the [World]; what the program itself decides is code below. *)

(** [telepresence.connect.ssh.SSH]: the runner and the local port. *)
Record SSH : Type := { port : N }.

(** The two fields of [RemoteInfo] the program reads. *)
Record RemoteInfo : Type := { pod_name : string; container_name : string }.

(** [argparse.Namespace]: [expose] stands for what
    [args.expose.local_to_remote()] returns. *)
Record Args : Type := {
  method : string;
  expose : list (N * N);
  context : string;
  run : option (list string)
}.

Inductive Command : Type :=
| Argv (argv : list string)
| Kubectl (argv : list string)               (* runner.kubectl(...) *)
| SshBg (ssh : SSH) (argv : list string).     (* ssh.bg_command(...) *)

(** A [Popen] object, named by its rank among the processes spawned. *)
Definition Process : Type := nat.

(** What a registered cleanup will call.  [TerminateIfAlive] is the closure
    of [run_local_command]; it captures the variable [p], bound or not. *)
Inductive Cleanup : Type :=
| CleanupCheckCall (argv : list string)
| TerminateIfAlive (p : option Process).

Inductive Event : Type :=
| Span
| SpanEnd
| Launch (name : string) (cmd : Command)
| FindFreePort (p : N)
| Depend (cmds : list string)
| GetOutput (argv : list string)
| Require (cmds : list string) (text : string)
| RequireSudo
| CheckCall (argv : list string) (env : option (gmap string string))
| AddCleanup (name : string) (action : Cleanup)
| SshWait (ssh : SSH)
| ExposeLocalServices (ssh : SSH) (ports : list (N * N))
| LaunchLocalServer (p : N)
| TrackBackground
| MakeTemp (name : string)
| ListDir (dir : string)
| Copy (src dst : string) (ok : bool)
| Chmod (path : string) (mode : N)
| WriteFile (path content : string)
| Sleep (ms : N)
| ConnectSshuttle (ssh : SSH)
| Popen (argv : list string) (env : gmap string string).

Inductive Error : Type :=
| Fail (msg : string)                         (* raise runner.fail(msg) *)
| MissingDependency (cmds : list string)      (* runner.require *)
| SudoUnavailable                             (* runner.require_sudo *)
| CalledProcessError (argv : list string)
| RuntimeError (msg : string)
| KeyError (key : string)
| UnboundLocalError (var : string)
| SshUnreachable                              (* ssh.wait *)
| ExternalFailure (who : string).

Record World : Type := {
  w_platform : string;                        (* runner.platform *)
  w_mac_loopback_ip : string;                 (* startup.MAC_LOOPBACK_IP *)
  w_free_port : nat -> N;                     (* k-th find_free_port() *)
  w_depend : list string -> list string;      (* the commands missing *)
  w_require : list string -> bool;            (* all commands present *)
  w_require_sudo : bool;
  w_get_output : list string -> option string;
  w_check_call : nat -> list string -> bool;  (* k-th check_call exits 0 *)
  w_call_duration : nat -> N;                 (* and takes that many ms *)
  w_ssh_wait : SSH -> bool;
  w_expose_ok : bool;                         (* expose_local_services *)
  w_sshuttle_ok : bool;                       (* connect_sshuttle *)
  w_make_temp : string -> string;             (* str(runner.make_temp(n)) *)
  w_temp : string;                            (* str(runner.temp) *)
  w_logfile : option string;                  (* None: sys.stdout *)
  w_listdir : string -> list string;
  w_copy_ok : string -> bool;                 (* false: IOError *)
  w_protected_order : list string;            (* iteration order of the set *)
  w_environ : gmap string string              (* os.environ *)
}.

Record State : Type := {
  trace : list Event;                         (* oldest first *)
  cleanups : list (string * Cleanup);         (* in registration order *)
  clock : Z;                                  (* time(), in milliseconds *)
  n_ports : nat;                              (* find_free_port calls *)
  n_calls : nat;                              (* check_call calls *)
  n_procs : nat                               (* Popen calls *)
}.

Definition initial (now : Z) : State :=
  {| trace := []; cleanups := []; clock := now;
     n_ports := 0; n_calls := 0; n_procs := 0 |}.

(** ** The monad *)

Inductive Result (A : Type) : Type :=
| Ok (a : A)
| Raise (e : Error).
Arguments Ok {A} a.
Arguments Raise {A} e.

Definition M (A : Type) : Type := State -> Result A * State.

#[export] Instance M_ret : MRet M := fun A a st => (Ok a, st).
#[export] Instance M_bind : MBind M := fun A B k m st =>
  match m st with
  | (Ok a, st') => k a st'
  | (Raise e, st') => (Raise e, st')
  end.

#[export] Instance M_fmap : FMap M := fun A B f m st =>
  match m st with
  | (Ok a, st') => (Ok (f a), st')
  | (Raise e, st') => (Raise e, st')
  end.

Definition raise {A : Type} (e : Error) : M A := fun st => (Raise e, st).

Definition emit (e : Event) : M unit := fun st =>
  (Ok tt, {| trace := trace st ++ [e]; cleanups := cleanups st;
             clock := clock st; n_ports := n_ports st;
             n_calls := n_calls st; n_procs := n_procs st |}).

Definition guard_ok (ok : bool) (e : Error) : M unit :=
  if ok then mret tt else raise e.

(** [for x in l: body x] *)
Fixpoint for_each {A : Type} (l : list A) (body : A -> M unit) : M unit :=
  match l with
  | [] => mret tt
  | x :: l' => body x ;; for_each l' body
  end.

Definition succeeded {A : Type} (r : Result A * State) : bool :=
  match r with (Ok _, _) => true | _ => false end.

(** ** The runner and its neighbours *)

Section Runner.
Variable w : World.

Definition find_free_port : M N := fun st =>
  let p := w_free_port w (n_ports st) in
  (Ok p, {| trace := trace st ++ [FindFreePort p]; cleanups := cleanups st;
            clock := clock st; n_ports := S (n_ports st);
            n_calls := n_calls st; n_procs := n_procs st |}).

Definition launch (name : string) (cmd : Command) : M unit :=
  emit (Launch name cmd).

Definition depend (cmds : list string) : M (list string) :=
  emit (Depend cmds) ;; mret (w_depend w cmds).

Definition require (cmds : list string) (text : string) : M unit :=
  emit (Require cmds text) ;;
  guard_ok (w_require w cmds) (MissingDependency cmds).

Definition require_sudo : M unit :=
  emit RequireSudo ;; guard_ok (w_require_sudo w) SudoUnavailable.

Definition get_output (argv : list string) : M string :=
  emit (GetOutput argv) ;;
  match w_get_output w argv with
  | Some out => mret out
  | None => raise (CalledProcessError argv)
  end.

(** [runner.check_call(argv, env=env)]: the call takes its time, then
    returns or raises [CalledProcessError]. *)
Definition check_call (argv : list string)
    (env : option (gmap string string)) : M unit := fun st =>
  let k := n_calls st in
  let st' := {| trace := trace st ++ [CheckCall argv env];
                cleanups := cleanups st;
                clock := (clock st + Z.of_N (w_call_duration w k))%Z;
                n_ports := n_ports st; n_calls := S k;
                n_procs := n_procs st |} in
  if w_check_call w k argv then (Ok tt, st')
  else (Raise (CalledProcessError argv), st').

Definition add_cleanup (name : string) (action : Cleanup) : M unit :=
  fun st =>
  (Ok tt, {| trace := trace st ++ [AddCleanup name action];
             cleanups := cleanups st ++ [(name, action)];
             clock := clock st; n_ports := n_ports st;
             n_calls := n_calls st; n_procs := n_procs st |}).

Definition ssh_wait (ssh : SSH) : M unit :=
  emit (SshWait ssh) ;; guard_ok (w_ssh_wait w ssh) SshUnreachable.

Definition expose_local_services (ssh : SSH) (ports : list (N * N))
    : M unit :=
  emit (ExposeLocalServices ssh ports) ;;
  guard_ok (w_expose_ok w) (ExternalFailure "expose_local_services").

Definition connect_sshuttle (ssh : SSH) : M unit :=
  emit (ConnectSshuttle ssh) ;;
  guard_ok (w_sshuttle_ok w) (ExternalFailure "connect_sshuttle").

Definition make_temp (name : string) : M string :=
  emit (MakeTemp name) ;; mret (w_make_temp w name).

Definition listdir (dir : string) : M (list string) :=
  emit (ListDir dir) ;; mret (w_listdir w dir).

Definition time : M Z := fun st => (Ok (clock st), st).

Definition sleep (ms : N) : M unit := fun st =>
  (Ok tt, {| trace := trace st ++ [Sleep ms]; cleanups := cleanups st;
             clock := (clock st + Z.of_N ms)%Z; n_ports := n_ports st;
             n_calls := n_calls st; n_procs := n_procs st |}).

Definition popen (argv : list string) (env : gmap string string)
    : M Process := fun st =>
  (Ok (n_procs st),
   {| trace := trace st ++ [Popen argv env]; cleanups := cleanups st;
      clock := clock st; n_ports := n_ports st;
      n_calls := n_calls st; n_procs := S (n_procs st) |}).

End Runner.

(** ** [telepresence/connect/__init__.py] *)

(** The double-quote character, for the messages that contain it. *)
Definition dq : string := String "034"%char EmptyString.

Definition msg_no_tool : string :=
  "At least one of " +:+ dq +:+ "ip addr" +:+ dq +:+ " or " +:+ dq +:+
  "ifconfig" +:+ dq +:+ " must be " +:+
  "available to retrieve Docker interface info.".

Definition msg_no_interface : string := "No interface for docker found".

Definition container_text : string :=
  "Needed to manage networking with the container method.".

Definition ip_cmd : list string := ["ip"; "addr"; "show"; "dev"; "docker0"].
Definition ifconfig_cmd : list string := ["ifconfig"; "docker0"].

Section Connect.
Variable w : World.

(** Lines 64-87: the Linux branch of the container method. *)
Definition docker_interface_linux : M string :=
  missing ← depend w ["ip"; "ifconfig"];
  docker_interfaces ←
    (if negb (PyStr.mem "ip" missing) then
       out ← get_output w ip_cmd; mret (Re.findall Re.ipv4 out)
     else if negb (PyStr.mem "ifconfig" missing) then
       out ← get_output w ifconfig_cmd; mret (Re.findall Re.ipv4 out)
     else raise (Fail msg_no_tool));
  match docker_interfaces with
  | [] => raise (Fail msg_no_interface)
  | first :: _ => mret first
  end.

(** Lines 89-107: every other platform takes the lo0 alias. *)
Definition docker_interface_other : M string :=
  let ip := w_mac_loopback_ip w in
  require w ["ifconfig"] container_text ;;
  require_sudo w ;;
  check_call w ["sudo"; "ifconfig"; "lo0"; "alias"; ip] None ;;
  add_cleanup "Mac Loopback"
    (CleanupCheckCall ["sudo"; "ifconfig"; "lo0"; "-alias"; ip]) ;;
  mret ip.

Definition socat_cmd (ssh : SSH) (docker_interface : string) : Command :=
  Argv ["socat";
        PyStr.format_ "TCP4-LISTEN:{},bind={},reuseaddr,fork"
          [PyStr.str (port ssh); docker_interface];
        PyStr.format_ "TCP4:127.0.0.1:{}" [PyStr.str (port ssh)]].

Definition forward_args (socks_port local_server_port : N) : list string :=
  [PyStr.format_ "-L127.0.0.1:{}:127.0.0.1:9050" [PyStr.str socks_port];
   PyStr.format_ "-R9055:127.0.0.1:{}" [PyStr.str local_server_port]].

Definition connect (remote_info : RemoteInfo) (cmdline_args : Args)
    : M (N * SSH) :=
  emit Span ;;
  launch "kubectl logs"
    (Kubectl ["logs"; "-f"; pod_name remote_info; "--container";
              container_name remote_info]) ;;
  ssh_port ← find_free_port w;
  let ssh := {| port := ssh_port |} in
  launch "kubectl port-forward"
    (Kubectl ["port-forward"; pod_name remote_info;
              PyStr.format_ "{}:8022" [PyStr.str (port ssh)]]) ;;
  (if String.eqb (method cmdline_args) "container" then
     docker_interface ←
       (if String.eqb (w_platform w) "linux" then docker_interface_linux
        else docker_interface_other);
     require w ["socat"] container_text ;;
     launch "socat for docker" (socat_cmd ssh docker_interface)
   else mret tt) ;;
  ssh_wait w ssh ;;
  (if negb (String.eqb (method cmdline_args) "container") then
     expose_local_services w ssh (expose cmdline_args)
   else mret tt) ;;
  socks_port ← find_free_port w;
  local_server_port ← find_free_port w;
  emit (LaunchLocalServer local_server_port) ;;
  emit TrackBackground ;;
  launch "SSH port forward (socks and proxy poll)"
    (SshBg ssh (forward_args socks_port local_server_port)) ;;
  emit SpanEnd ;;
  mret (socks_port, ssh).

End Connect.

(** A Linux host with [ip] but no [ifconfig], and docker0 at 172.17.0.1. *)
Definition ip_addr_output : string :=
  "4: docker0: <NO-CARRIER,BROADCAST,MULTICAST,UP> mtu 1500 qdisc noqueue
    link/ether 02:42:6d:1b:0a:3c brd ff:ff:ff:ff:ff:ff
    inet 172.17.0.1/16 brd 172.17.255.255 scope global docker0
       valid_lft forever preferred_lft forever".

Definition linux_world : World := {|
  w_platform := "linux";
  w_mac_loopback_ip := "198.18.0.254";
  w_free_port := fun k => (40000 + N.of_nat k)%N;
  w_depend := fun cmds => filter (fun c => c ≠ "ip") cmds;
  w_require := fun _ => true;
  w_require_sudo := true;
  w_get_output := fun argv =>
    if decide (argv = ip_cmd) then Some ip_addr_output else None;
  w_check_call := fun _ _ => true;
  w_call_duration := fun _ => 50%N;
  w_ssh_wait := fun _ => true;
  w_expose_ok := true;
  w_sshuttle_ok := true;
  w_make_temp := fun name => "/tmp/tel-x/" +:+ name;
  w_temp := "/tmp/tel-x";
  w_logfile := Some "/home/dev/telepresence.log";
  w_listdir := fun _ => [];
  w_copy_ok := fun _ => true;
  w_protected_order := ["/usr/bin"; "/bin"; "/usr/sbin"; "/sbin"];
  w_environ := {[ "PATH" := "/usr/local/bin:/usr/bin:/bin"; "HOME" := "/home/dev" ]}
|}.

Definition pod : RemoteInfo := {| pod_name := "web-7d9"; container_name := "web" |}.

Definition args_of (m : string) : Args :=
  {| method := m; expose := [(8080, 80)%N]; context := "minikube"; run := None |}.


(** ** [telepresence/local.py] *)

Definition protected : gset string :=
  {[ "/bin"; "/sbin"; "/usr/sbin"; "/usr/bin" ]}.

(** [NICE_FAILURE]; the backslash-newlines of the literal join its third,
    fourth and fifth source lines into one line of the script. *)
Definition NICE_FAILURE : string :=
  "#!/bin/sh
echo {} is not supported under Telepresence.
echo See https://telepresence.io/reference/limitations.html for details.
exit 55
".

Definition TORSOCKS_CONFIG : string :=
  "
# Allow process to listen on ports:
AllowInbound 1
# Allow process to connect to localhost:
AllowOutboundLocalhost 1
# Connect to custom port for SOCKS server:
TorPort {}
".

Definition probe_cmd : list string :=
  ["torsocks"; "python3"; "-c";
   "import socket; socket.socket().connect(('google.com', 80))"].

Definition msg_socks_failed : string :=
  "SOCKS network proxying failed to start...".

(** The file modes [0o775] and [0o755]. *)
Definition mode_0o775 : N := 7 * 64 + 7 * 8 + 5.
Definition mode_0o755 : N := 7 * 64 + 5 * 8 + 5.

(** The timeout of the readiness loop and its sleep, in milliseconds:
    the [10] and the [0.1] of lines 117 and 125. *)
Definition probe_timeout : Z := 10000.
Definition probe_interval : N := 100.

(** [try: m / except CalledProcessError: ... / else: ...]: the answer tells
    which branch runs; any other exception propagates. *)
Definition except_called_process_error (m : M unit) : M bool := fun st =>
  match m st with
  | (Ok _, st') => (Ok true, st')
  | (Raise (CalledProcessError _), st') => (Ok false, st')
  | (Raise e, st') => (Raise e, st')
  end.

(** [env[key]] *)
Definition getitem (env : gmap string string) (key : string) : M string :=
  match env !! key with
  | Some v => mret v
  | None => raise (KeyError key)
  end.

Definition copy (src dst : string) (ok : bool) : M bool :=
  emit (Copy src dst ok) ;; mret ok.

(** A value together with the equation that names it, for the case
    analyses of [probe_loop]. *)
Definition inspect {A : Type} (a : A) : {b : A | a = b} :=
  exist _ a eq_refl.

(** Lines 116-128 of [setup_torsocks]: the readiness loop.  Every round
    that does not return sleeps, so the clock moves towards the timeout. *)
Equations? probe_loop (w : World) (env : gmap string string) (start : Z)
    (st : State) : Result unit * State
    by wf (Z.to_nat (probe_timeout - (clock st - start))) lt :=
  probe_loop w env start st
    with inspect (clock st - start <? probe_timeout)%Z := {
    | exist _ false _ := (Raise (RuntimeError msg_socks_failed), st)
    | exist _ true _
        with inspect
          (except_called_process_error
             (check_call w probe_cmd (Some env)) st) := {
        | exist _ (Ok true, st1) _ := (Ok tt, st1)
        | exist _ (Ok false, st1) _ :=
            probe_loop w env start (sleep probe_interval st1).2
        | exist _ (Raise e, st1) _ := (Raise e, st1) } }.
Proof.
  apply Z.ltb_lt in e.
  unfold except_called_process_error, check_call in e0.
  destruct (w_check_call w (n_calls st) probe_cmd);
    [discriminate | injection e0 as <-].
  cbn. unfold probe_timeout, probe_interval in *. lia.
Qed.

Section Local.
Variable w : World.

(** Lines 31-60. *)
Definition sip_workaround (existing_paths unsupported_tools_path : string)
    : M string :=
  let paths :=
    filter (fun p => p ∉ protected) (PyStr.split ":" existing_paths) in
  bin_dir ← make_temp w "sip_bin";
  let paths := bin_dir :: paths in
  for_each (w_protected_order w) (fun directory =>
    files ← listdir w directory;
    for_each files (fun file =>
      copy (PyStr.path_join directory file) bin_dir
        (w_copy_ok w (PyStr.path_join directory file)) ≫= fun copied : bool =>
      if copied then emit (Chmod (PyStr.path_join bin_dir file) mode_0o775)
      else mret tt)) ;;
  let paths := unsupported_tools_path :: paths in
  mret (PyStr.join ":" paths).

Definition commands (dns_supported : bool) : list string :=
  ["ping"; "traceroute"] ++
  (if negb dns_supported then ["nslookup"; "dig"; "host"] else []).

(** Lines 73-88. *)
Definition get_unsupported_tools (dns_supported : bool) : M string :=
  unsupported_bin ← make_temp w "unsup_bin";
  for_each (commands dns_supported) (fun command =>
    let path := unsupported_bin +:+ "/" +:+ command in
    emit (WriteFile path (PyStr.format_ NICE_FAILURE [command])) ;;
    emit (Chmod path mode_0o755)) ;;
  mret unsupported_bin.

(** Lines 101-128.  [env] is the caller's dictionary, updated in place:
    the updated dictionary is handed back. *)
Definition setup_torsocks (env : gmap string string) (socks_port : N)
    (unsupported_tools_path : string) : M (gmap string string) :=
  let conf := PyStr.path_join (w_temp w) "tel_torsocks.conf" in
  emit (WriteFile conf
          (PyStr.format_ TORSOCKS_CONFIG [PyStr.str socks_port])) ;;
  let env := <["TORSOCKS_CONF_FILE" := conf]> env in
  let env := match w_logfile w with
             | Some name => <["TORSOCKS_LOG_FILE_PATH" := name]> env
             | None => env
             end in
  env ← (if String.eqb (w_platform w) "darwin" then
           existing ← getitem env "PATH";
           path ← sip_workaround existing unsupported_tools_path;
           mret (<["PATH" := path]> env)
         else mret env);
  start ← time;
  probe_loop w env start ;;
  mret env.

Definition prompt_command (context : string) : string :=
  PyStr.format_ ("PS1=" +:+ dq +:+ "@{}|$PS1" +:+ dq +:+
                 ";unset PROMPT_COMMAND") [context].

(** Lines 131-177.  [p] is the local variable of that name: [None] while
    no assignment has run. *)
Definition run_local_command (remote_info : RemoteInfo) (args : Args)
    (env_overrides : gmap string string) (socks_port : N) (ssh : SSH)
    : M Process :=
  let env := env_overrides ∪ w_environ w in
  let env := <["PROMPT_COMMAND" := prompt_command (context args)]> env in
  unsupported_tools_path ←
    get_unsupported_tools (negb (String.eqb (method args) "inject-tcp"));
  existing ← getitem env "PATH";
  let env := <["PATH" := unsupported_tools_path +:+ ":" +:+ existing]> env in
  let command := match run args with
                 | None => ["bash"; "--norc"]
                 | Some argv => argv
                 end in
  p ← (if String.eqb (method args) "inject-tcp" then
         env ← setup_torsocks env socks_port unsupported_tools_path;
         Some <$> popen ("torsocks" :: command) env
       else if String.eqb (method args) "vpn-tcp" then
         connect_sshuttle w ssh ;;
         Some <$> popen command env
       else mret None);
  add_cleanup "Terminate local process" (TerminateIfAlive p) ;;
  match p with
  | Some proc => mret proc
  | None => raise (UnboundLocalError "p")
  end.

End Local.


(** ** What a run adds to the trace *)

Definition emitted (st st' : State) : list Event :=
  drop (length (trace st)) (trace st').

(** Every event of [tr] that satisfies [D] comes after an event of [tr]
    that satisfies [R]. *)
Definition preceded_by (R D : Event -> Prop) (tr : list Event) : Prop :=
  forall k d, tr !! k = Some d -> D d ->
    exists j r, (j < k)%nat /\ tr !! j = Some r /\ R r.

(** The same, computed along the trace: [seen] says that an [R] event has
    gone by. *)
Fixpoint guarded (R D : Event -> Prop) (seen : Prop) (tr : list Event)
    : Prop :=
  match tr with
  | [] => True
  | e :: tr' => (D e -> seen) /\ guarded R D (seen \/ R e) tr'
  end.

(** The port-forward of [connect], lines 50-55. *)
Definition port_forward (ri : RemoteInfo) (ssh : SSH) : Event :=
  Launch "kubectl port-forward"
    (Kubectl ["port-forward"; pod_name ri;
              PyStr.str (port ssh) +:+ ":8022"]).


Definition is_ssh_bg_launch (e : Event) : bool :=
  match e with Launch _ (SshBg _ _) => true | _ => false end.

(** The combined forwarding command of lines 139-146. *)
Definition forwarding (ssh : SSH) (socks_port local_server_port : N)
    : Event :=
  Launch "SSH port forward (socks and proxy poll)"
    (SshBg ssh
       ["-L127.0.0.1:" +:+ PyStr.str socks_port +:+ ":127.0.0.1:9050";
        "-R9055:127.0.0.1:" +:+ PyStr.str local_server_port]).


(** ** The readiness loop, round by round *)

(** The state with [l] added to the trace. *)
Definition add_events (st : State) (l : list Event) : State :=
  {| trace := trace st ++ l; cleanups := cleanups st; clock := clock st;
     n_ports := n_ports st; n_calls := n_calls st; n_procs := n_procs st |}.

(** One probe, and one failed round: a probe and the sleep after it. *)
Definition after_probe (w : World) (env : gmap string string) (st : State)
    : State :=
  (check_call w probe_cmd (Some env) st).2.

Definition after_round (w : World) (env : gmap string string) (st : State)
    : State :=
  (sleep probe_interval (after_probe w env st)).2.

Fixpoint rounds (w : World) (env : gmap string string) (n : nat)
    (st : State) : State :=
  match n with
  | O => st
  | S n' => rounds w env n' (after_round w env st)
  end.

(** The time [n] failed rounds take when the first of them is the [k]-th
    [check_call] of the session. *)
Fixpoint busy (w : World) (k n : nat) : Z :=
  match n with
  | O => 0
  | S n' =>
      Z.of_N (w_call_duration w k) + Z.of_N probe_interval + busy w (S k) n'
  end.

Definition round_events (env : gmap string string) (n : nat) : list Event :=
  concat (replicate n [CheckCall probe_cmd (Some env); Sleep probe_interval]).

(** The probe first succeeds on its [N]-th attempt, counting from one,
    when the loop starts at the [k]-th [check_call] of the session. *)
Definition first_success_at (w : World) (k N : nat) : Prop :=
  (0 < N)%nat /\
  (forall j, (j < N - 1)%nat -> w_check_call w (k + j) probe_cmd = false) /\
  w_check_call w (k + (N - 1)) probe_cmd = true.

(** The sentence about the N-th attempt, read to the letter: only the
    sleeps count against the timeout. *)
Definition readiness_as_stated (w : World) (env : gmap string string)
    (st : State) (N : nat) : Prop :=
  first_success_at w (n_calls st) N ->
  (Z.of_nat N * Z.of_N probe_interval < probe_timeout)%Z ->
  exists st', probe_loop w env (clock st) st = (Ok tt, st') /\
              n_calls st' = (n_calls st + N)%nat.

(** A host for the readiness loop: every probe takes [duration]
    milliseconds and the k-th [check_call] of the session succeeds when
    [ok k]. *)
Definition probing_world (duration : N) (ok : nat -> bool) : World := {|
  w_platform := "linux";
  w_mac_loopback_ip := "198.18.0.254";
  w_free_port := fun k => (40000 + N.of_nat k)%N;
  w_depend := fun _ => [];
  w_require := fun _ => true;
  w_require_sudo := true;
  w_get_output := fun _ => None;
  w_check_call := fun k _ => ok k;
  w_call_duration := fun _ => duration;
  w_ssh_wait := fun _ => true;
  w_expose_ok := true;
  w_sshuttle_ok := true;
  w_make_temp := fun name => "/tmp/tel-x/" +:+ name;
  w_temp := "/tmp/tel-x";
  w_logfile := None;
  w_listdir := fun _ => [];
  w_copy_ok := fun _ => true;
  w_protected_order := ["/bin"; "/sbin"; "/usr/sbin"; "/usr/bin"];
  w_environ := {[ "PATH" := "/usr/bin:/bin" ]}
|}.

(** Each probe takes six seconds and the third is the first to get
    through. *)
Definition slow_world : World := probing_world 6000 (fun k => (2 <=? k)%nat).

(** The same with probes of half a second. *)
Definition flaky_world : World := probing_world 500 (fun k => (2 <=? k)%nat).

(** No probe ever gets through; each takes three seconds to fail. *)
Definition dead_world : World := probing_world 3000 (fun _ => false).

(** ** The events of the helpers of [local] *)

Definition script (command : string) : string :=
  "#!/bin/sh
echo " +:+ command +:+ " is not supported under Telepresence.
echo See https://telepresence.io/reference/limitations.html for details.
exit 55
".

Definition stub_events (w : World) (dns_supported : bool) : list Event :=
  MakeTemp "unsup_bin" ::
  flat_map (fun command =>
              let path := w_make_temp w "unsup_bin" +:+ "/" +:+ command in
              [WriteFile path (script command); Chmod path mode_0o755])
           (commands dns_supported).

Definition copy_events (w : World) (directory : string) : list Event :=
  ListDir directory ::
  flat_map (fun file =>
              let src := PyStr.path_join directory file in
              if w_copy_ok w src then
                [Copy src (w_make_temp w "sip_bin") true;
                 Chmod (PyStr.path_join (w_make_temp w "sip_bin") file)
                   mode_0o775]
              else [Copy src (w_make_temp w "sip_bin") false])
           (w_listdir w directory).

Definition sip_events (w : World) : list Event :=
  MakeTemp "sip_bin" :: flat_map (copy_events w) (w_protected_order w).

Definition is_probe (e : Event) : Prop :=
  match e with CheckCall _ _ => True | _ => False end.

Definition is_spawn (e : Event) : Prop :=
  match e with Popen _ _ => True | _ => False end.

(** A computation that only ever adds to the trace. *)
Definition extends {A : Type} (m : M A) : Prop :=
  forall st, exists l, trace (m st).2 = trace st ++ l.

Definition is_add_cleanup (e : Event) : Prop :=
  match e with AddCleanup _ _ => True | _ => False end.

(** The sentence about the other methods, read to the letter: the error
    comes before any spawn and before any registration. *)
Definition raises_before_registering (w : World) (ri : RemoteInfo)
    (args : Args) (env_overrides : gmap string string) (socks_port : N)
    (ssh : SSH) (st : State) : Prop :=
  let r := run_local_command w ri args env_overrides socks_port ssh st in
  (exists e, r.1 = Raise e) /\
  Forall (fun x => ~ is_spawn x) (emitted st r.2) /\
  Forall (fun x => ~ is_add_cleanup x) (emitted st r.2).

(** The sentence about the failed launch, read to the letter: when no
    successful probe is over within the timeout, the launch raises and
    spawns nothing. *)
Definition fails_without_timely_round_trip (w : World) (ri : RemoteInfo)
    (args : Args) (env_overrides : gmap string string) (socks_port : N)
    (ssh : SSH) (st : State) : Prop :=
  let r := run_local_command w ri args env_overrides socks_port ssh st in
  (forall j, w_check_call w (n_calls st + j) probe_cmd = true ->
     (probe_timeout
      < busy w (n_calls st) j
        + Z.of_N (w_call_duration w (n_calls st + j)))%Z) ->
  (exists e, r.1 = Raise e) /\
  Forall (fun x => ~ is_spawn x) (emitted st r.2).

(** Every probe gets through, after a quarter of a minute. *)
Definition sluggish_world : World := probing_world 15000 (fun _ => true).

(** Neither a probe nor a spawn. *)
Definition quiet (e : Event) : Prop := ~ is_probe e /\ ~ is_spawn e.

Definition torsocks_conf (w : World) : string :=
  PyStr.path_join (w_temp w) "tel_torsocks.conf".

Definition torsocks_conf_write (w : World) (socks_port : N) : Event :=
  WriteFile (torsocks_conf w)
    (PyStr.format_ TORSOCKS_CONFIG [PyStr.str socks_port]).

(** ** Paths and addresses *)

(** [c in s] for a character. *)
Fixpoint mentions (c : ascii) (s : string) : bool :=
  match s with
  | EmptyString => false
  | String x rest => PyStr.ascii_eqb x c || mentions c rest
  end.


(** A macOS host with two files in /bin, one of which cannot be copied. *)
Definition mac_world : World := {|
  w_platform := "darwin";
  w_mac_loopback_ip := "198.18.0.254";
  w_free_port := fun k => (40000 + N.of_nat k)%N;
  w_depend := fun _ => [];
  w_require := fun _ => true;
  w_require_sudo := true;
  w_get_output := fun _ => None;
  w_check_call := fun _ _ => true;
  w_call_duration := fun _ => 50%N;
  w_ssh_wait := fun _ => true;
  w_expose_ok := true;
  w_sshuttle_ok := true;
  w_make_temp := fun name => "/tmp/tel-x/" +:+ name;
  w_temp := "/tmp/tel-x";
  w_logfile := None;
  w_listdir := fun d => if String.eqb d "/bin" then ["sh"; "ls"] else [];
  w_copy_ok := fun src => negb (String.eqb src "/bin/ls");
  w_protected_order := ["/usr/sbin"; "/bin"; "/usr/bin"; "/sbin"];
  w_environ := {[ "PATH" := "/usr/local/bin:/usr/bin:/bin" ]}
|}.

(** What the Linux branch makes of a tool's output: the first match of
    the pattern, or the failure of line 85. *)
Definition first_address (out : string) : Result string :=
  match Re.findall Re.ipv4 out with
  | first :: _ => Ok first
  | [] => Raise (Fail msg_no_interface)
  end.

(** The outcome of [runner.get_output(argv)] followed by the choice of
    the first address. *)
Definition address_from (w : World) (argv : list string) : Result string :=
  match w_get_output w argv with
  | Some out => first_address out
  | None => Raise (CalledProcessError argv)
  end.

(** ** Vocabulary of the further properties *)

(** The dictionary [run_local_command] has built by line 152, given the
    value of PATH it found. *)
Definition launcher_env (w : World) (args : Args)
    (env_overrides : gmap string string) (existing : string)
    : gmap string string :=
  <["PATH" := w_make_temp w "unsup_bin" +:+ ":" +:+ existing]>
    (<["PROMPT_COMMAND" := prompt_command (context args)]>
       (env_overrides ∪ w_environ w)).

(** The command of lines 156-162. *)
Definition user_command (args : Args) : list string :=
  match run args with
  | None => ["bash"; "--norc"]
  | Some argv => argv
  end.

(** The events that only touch the file system. *)
Definition is_file_op (e : Event) : Prop :=
  match e with
  | MakeTemp _ | ListDir _ | Copy _ _ _ | Chmod _ _ | WriteFile _ _ => True
  | _ => False
  end.

(** The events of the readiness loop. *)
Definition is_loop_event (e : Event) : Prop :=
  match e with CheckCall _ _ | Sleep _ => True | _ => False end.

(** Every character of [s] is in the class. *)
Fixpoint all_chars (cls : ascii -> bool) (s : string) : bool :=
  match s with
  | EmptyString => true
  | String c rest => cls c && all_chars cls rest
  end.

(** One of the ten characters 0 to 9. *)
Definition decimal (c : ascii) : bool := mentions c "0123456789".

(** A non-empty run of the characters 0 to 9. *)
Definition digits (s : string) : Prop :=
  s <> EmptyString /\ all_chars decimal s = true.

(** Four such runs separated by three dots. *)
Definition dotted_quad (s : string) : Prop :=
  exists a b c d,
    s = a +:+ "." +:+ b +:+ "." +:+ c +:+ "." +:+ d /\
    digits a /\ digits b /\ digits c /\ digits d.

(** Text of the ASCII range only. *)
Definition ascii_text (s : string) : bool :=
  all_chars (fun c => (nat_of_ascii c <? 128)%nat) s.

(** How many events of a trace satisfy a test. *)
Fixpoint count_events (f : Event -> bool) (tr : list Event) : nat :=
  match tr with
  | [] => 0
  | e :: tr' => (if f e then 1 else 0) + count_events f tr'
  end.

Definition is_copy (e : Event) : bool :=
  match e with Copy _ _ _ => true | _ => false end.

Definition is_chmod (e : Event) : bool :=
  match e with Chmod _ _ => true | _ => false end.

(** The listing of the directory [d]. *)
Definition lists (d : string) (e : Event) : bool :=
  match e with ListDir d' => String.eqb d' d | _ => false end.

(** The copies [sip_workaround] attempts for the directory [d], in the
    order of the listing, each with what became of it. *)
Definition copies_of (w : World) (d : string) : list Event :=
  map (fun f => Copy (PyStr.path_join d f) (w_make_temp w "sip_bin")
                  (w_copy_ok w (PyStr.path_join d f)))
      (w_listdir w d).

(** The changes of mode for the files of [d] whose copy went through. *)
Definition chmods_of (w : World) (d : string) : list Event :=
  map (fun f => Chmod (PyStr.path_join (w_make_temp w "sip_bin") f)
                  mode_0o775)
      (List.filter (fun f => w_copy_ok w (PyStr.path_join d f))
         (w_listdir w d)).

(** The steps that look at the local machine: dependency checks, sudo,
    commands run to completion, cleanups. *)
Definition is_local_check (e : Event) : bool :=
  match e with
  | Depend _ | GetOutput _ | Require _ _ | RequireSudo
  | CheckCall _ _ | AddCleanup _ _ => true
  | _ => false
  end.

Definition loopback_alias (w : World) : list string :=
  ["sudo"; "ifconfig"; "lo0"; "alias"; w_mac_loopback_ip w].

Definition loopback_unalias (w : World) : list string :=
  ["sudo"; "ifconfig"; "lo0"; "-alias"; w_mac_loopback_ip w].

(** The run gets as far as asking for the lo0 alias. *)
Definition alias_attempted (w : World) (args : Args) : bool :=
  if String.eqb (method args) "container" then
    if String.eqb (w_platform w) "linux" then false
    else if w_require w ["ifconfig"] then w_require_sudo w else false
  else false.

(** The first four steps of every run of [connect]. *)
Definition connect_head (ri : RemoteInfo) (ssh : SSH) : list Event :=
  [Span;
   Launch "kubectl logs"
     (Kubectl ["logs"; "-f"; pod_name ri; "--container"; container_name ri]);
   FindFreePort (port ssh);
   port_forward ri ssh].

Definition is_ssh_wait (e : Event) : bool :=
  match e with SshWait _ => true | _ => false end.

Definition is_socat_launch (e : Event) : bool :=
  match e with
  | Launch name _ => String.eqb name "socat for docker"
  | _ => false
  end.

Definition torsocks_config_text (socks_port : N) : string :=
  "
# Allow process to listen on ports:
AllowInbound 1
# Allow process to connect to localhost:
AllowOutboundLocalhost 1
# Connect to custom port for SOCKS server:
TorPort " +:+ PyStr.str socks_port +:+ "
".

(** A Linux host with docker0 up and no socat. *)
Definition no_socat_world : World := {|
  w_platform := "linux";
  w_mac_loopback_ip := "198.18.0.254";
  w_free_port := fun k => (40000 + N.of_nat k)%N;
  w_depend := fun _ => [];
  w_require := fun cmds => negb (PyStr.mem "socat" cmds);
  w_require_sudo := true;
  w_get_output := fun _ => Some ip_addr_output;
  w_check_call := fun _ _ => true;
  w_call_duration := fun _ => 50%N;
  w_ssh_wait := fun _ => true;
  w_expose_ok := true;
  w_sshuttle_ok := true;
  w_make_temp := fun name => "/tmp/tel-x/" +:+ name;
  w_temp := "/tmp/tel-x";
  w_logfile := None;
  w_listdir := fun _ => [];
  w_copy_ok := fun _ => true;
  w_protected_order := [];
  w_environ := ∅
|}.

(** ** Sanity checks of the string functions *)

Example str_port : PyStr.str 8022 = "8022". Proof. reflexivity. Qed.
Example split_ex : PyStr.split ":" "/a::/b" = ["/a"; EmptyString; "/b"].
Proof. reflexivity. Qed.
Example format_ex p : PyStr.format_ "{}:8022" [PyStr.str p] = PyStr.str p +:+ ":8022".
Proof. reflexivity. Qed.
Example str_zero : PyStr.str 0 = "0". Proof. reflexivity. Qed.
Example split_empty : PyStr.split ":" EmptyString = [EmptyString].
Proof. reflexivity. Qed.
Example join_ex : PyStr.join ":" ["/a"; EmptyString; "/b"] = "/a::/b".
Proof. reflexivity. Qed.
Example path_join_ex : PyStr.path_join "/bin" "sh" = "/bin/sh".
Proof. reflexivity. Qed.
Example findall_ifconfig :
  Re.findall Re.ipv4
    "docker0: flags=4099<UP,BROADCAST,MULTICAST>  mtu 1500
        inet 172.17.0.1  netmask 255.255.0.0  broadcast 172.17.255.255"
  = ["172.17.0.1"; "255.255.0.0"; "172.17.255.255"].
Proof. reflexivity. Qed.
Example findall_backtrack : Re.findall Re.ipv4 "1.2.3.x 10.0.0.12.7" = ["10.0.0.12"].
Proof. reflexivity. Qed.
Example findall_ex :
  Re.findall Re.ipv4 "inet 172.17.0.1/16 brd 172.17.255.255 scope 1.2.3 x"
  = ["172.17.0.1"; "172.17.255.255"].
Proof. reflexivity. Qed.



(** ** Running the straight-line code symbolically *)

Lemma emitted_app st st' l : trace st' = trace st ++ l -> emitted st st' = l.
Proof. unfold emitted. intros ->. apply drop_app_length. Qed.

Ltac unfold_ops :=
  cbv [mbind M_bind mret M_ret fmap M_fmap raise emit guard_ok launch depend
       require require_sudo get_output check_call add_cleanup ssh_wait
       expose_local_services connect_sshuttle make_temp listdir time sleep
       popen find_free_port copy getitem] in *;
  cbn [trace cleanups clock n_ports n_calls n_procs fst snd port] in *.

Ltac branch :=
  match goal with
  | H : context [if ?c then _ else _] |- _ => destruct c eqn:?
  | H : context [match ?c with Some _ => _ | None => _ end] |- _ =>
      destruct c eqn:?
  | H : context [match ?c with [] => _ | _ :: _ => _ end] |- _ =>
      destruct c eqn:?
  end;
  cbn [trace cleanups clock n_ports n_calls n_procs fst snd port negb] in *.

Ltac leaf :=
  match goal with
  | H : (_, _) = (_, _) |- _ => injection H as <- <-
  end;
  cbn [trace cleanups clock n_ports n_calls n_procs fst snd port] in *;
  rewrite <- ?app_assoc; cbn [app].


Ltac run_connect H :=
  unfold connect, docker_interface_linux, docker_interface_other in H;
  unfold_ops; repeat branch; leaf;
  erewrite emitted_app by reflexivity.

Lemma guarded_lookup R D seen tr :
  guarded R D seen tr ->
  forall k d, tr !! k = Some d -> D d ->
    seen \/ exists j r, (j < k)%nat /\ tr !! j = Some r /\ R r.
Proof.
  revert seen. induction tr as [|e tr IH]; intros seen Hg k d Hk Hd; [done|].
  destruct Hg as [He Hg]. destruct k as [|k]; cbn in Hk.
  - injection Hk as ->. left. auto.
  - destruct (IH _ Hg k d Hk Hd) as [[Hs | Hr] | (j & r & Hj & Hl & Hr)].
    + left. exact Hs.
    + right. exists 0%nat, e. repeat split; [lia | exact Hr].
    + right. exists (S j), r. repeat split; [lia | exact Hl | exact Hr].
Qed.

Lemma guarded_preceded R D tr : guarded R D False tr -> preceded_by R D tr.
Proof.
  intros Hg k d Hk Hd.
  destruct (guarded_lookup _ _ _ _ Hg k d Hk Hd) as [[] | H]. exact H.
Qed.

Lemma append_empty s : s +:+ EmptyString = s.
Proof.
  induction s as [|c s IH]; [done|].
  change (String c (s +:+ EmptyString) = String c s). by rewrite IH.
Qed.

Lemma format_port_forward p :
  PyStr.format_ "{}:8022" [PyStr.str p] = PyStr.str p +:+ ":8022".
Proof. reflexivity. Qed.

Lemma forward_args_eq socks lsp :
  forward_args socks lsp =
  ["-L127.0.0.1:" +:+ PyStr.str socks +:+ ":127.0.0.1:9050";
   "-R9055:127.0.0.1:" +:+ PyStr.str lsp].
Proof. unfold forward_args. cbn. by rewrite append_empty. Qed.

Lemma method_eqb_false (m : string) :
  (m =? "container")%string = false -> m <> "container".
Proof. intros H. by apply String.eqb_neq. Qed.

(** ** [connect]: the tunnel behind the SSH session *)

(** C1.  Whatever the method, a run of [connect] that has reached
    [ssh.wait()] with the SSH server answering (and whose exposure step, for
    the methods that have one, returns) goes on to take two further ports
    from [find_free_port], the second and third of the run, starts the local
    poll server on the latter, launches one [ssh.bg_command] whose arguments
    are the forward SOCKS leg [-L127.0.0.1:socks:127.0.0.1:9050] and the
    reverse poll leg [-R9055:127.0.0.1:local_server_port], and returns the
    SOCKS port with the SSH handle.  That launch is the only
    [ssh.bg_command] launch of the run. *)
Theorem connect_tunnel_after_ssh_wait (w : World) (ri : RemoteInfo)
    (args : Args) (st : State) (ssh : SSH)
    (Hreached : SshWait ssh ∈ emitted st (connect w ri args st).2)
    (Hlive : w_ssh_wait w ssh = true)
    (Hexpose : method args = "container" \/ w_expose_ok w = true) :
  let socks_port := w_free_port w (S (n_ports st)) in
  let local_server_port := w_free_port w (S (S (n_ports st))) in
  let exposure :=
    if String.eqb (method args) "container" then []
    else [ExposeLocalServices ssh (expose args)] in
  (connect w ri args st).1 = Ok (socks_port, ssh) /\
  (exists pre,
     emitted st (connect w ri args st).2 =
       pre ++ [SshWait ssh] ++ exposure ++
       [FindFreePort socks_port; FindFreePort local_server_port;
        LaunchLocalServer local_server_port; TrackBackground;
        forwarding ssh socks_port local_server_port; SpanEnd] /\
     SshWait ssh ∉ pre) /\
  length (filter (fun e => is_ssh_bg_launch e = true)
            (emitted st (connect w ri args st).2)) = 1%nat /\
  n_ports (connect w ri args st).2 = (n_ports st + 3)%nat.
Proof.
  cbv zeta. unfold forwarding.
  destruct (connect w ri args st) as [r st'] eqn:H. cbn [fst snd] in *.
  revert Hreached. run_connect H.
  all: rewrite ?forward_args_eq.
  all: intros Hin; apply list_elem_of_In in Hin; cbn in Hin.
  all: try (exfalso; intuition discriminate).
  all: try (exfalso; destruct Hexpose as [He | He];
            [apply method_eqb_false in He; done | congruence]).
  all: assert (Hssh : ssh = {| port := w_free_port w (n_ports st) |})
         by (intuition congruence); subst ssh.
  all: try congruence.
  all: split; [reflexivity|]; split; [|split; [reflexivity | lia]].
  all: eexists; split;
       [ match goal with
         | |- ?l = _ =>
             match l with
             | context C [SshWait ?s :: ?rest] =>
                 let pre := context C [@nil Event] in
                 instantiate (1 := pre)
             end
         end; reflexivity
       | rewrite list_elem_of_In; cbn; intuition discriminate ].
Qed.

Lemma connect_tunnel_after_ssh_wait_witness :
  (connect linux_world pod (args_of "inject-tcp") (initial 0)).1
  = Ok (40001%N, {| port := 40000 |}).
Proof.
  refine (proj1 (connect_tunnel_after_ssh_wait linux_world pod
                   (args_of "inject-tcp") (initial 0) {| port := 40000 |}
                   _ _ _)).
  - apply list_elem_of_In. vm_compute.
    repeat (first [left; reflexivity | right]).
  - reflexivity.
  - right. reflexivity.
Defined.



(** ** The readiness loop of [setup_torsocks] *)

Lemma probe_loop_body w env start st :
  probe_loop w env start st =
  if (clock st - start <? probe_timeout)%Z then
    match except_called_process_error
            (check_call w probe_cmd (Some env)) st with
    | (Ok true, st1) => (Ok tt, st1)
    | (Ok false, st1) => probe_loop w env start (sleep probe_interval st1).2
    | (Raise e, st1) => (Raise e, st1)
    end
  else (Raise (RuntimeError msg_socks_failed), st).
Proof.
  rewrite probe_loop_equation_1.
  unfold probe_loop_unfold_clause_1, probe_loop_unfold_clause_1_clause_2.
  destruct (inspect (clock st - start <? probe_timeout)%Z) as [[] Hb];
    rewrite Hb; [|reflexivity].
  destruct (inspect (except_called_process_error _ st)) as [[[[|]|e] st1] Hc];
    rewrite Hc; reflexivity.
Qed.

(** One turn of the loop, in terms of the oracle. *)
Lemma probe_loop_step w env start st :
  probe_loop w env start st =
  if (clock st - start <? probe_timeout)%Z then
    if w_check_call w (n_calls st) probe_cmd
    then (Ok tt, after_probe w env st)
    else probe_loop w env start (after_round w env st)
  else (Raise (RuntimeError msg_socks_failed), st).
Proof.
  rewrite probe_loop_body. unfold after_round, after_probe.
  unfold except_called_process_error, check_call.
  destruct (w_check_call w (n_calls st) probe_cmd); reflexivity.
Qed.

Lemma after_round_fields w env st :
  trace (after_round w env st)
    = trace st ++ [CheckCall probe_cmd (Some env); Sleep probe_interval] /\
  cleanups (after_round w env st) = cleanups st /\
  clock (after_round w env st)
    = (clock st + (Z.of_N (w_call_duration w (n_calls st))
                   + Z.of_N probe_interval))%Z /\
  n_ports (after_round w env st) = n_ports st /\
  n_calls (after_round w env st) = S (n_calls st) /\
  n_procs (after_round w env st) = n_procs st.
Proof.
  unfold after_round, after_probe, check_call, sleep.
  destruct (w_check_call w (n_calls st) probe_cmd); cbn;
    rewrite <- app_assoc, <- Z.add_assoc; done.
Qed.

Lemma rounds_fields w env n : forall st,
  trace (rounds w env n st) = trace st ++ round_events env n /\
  cleanups (rounds w env n st) = cleanups st /\
  clock (rounds w env n st) = (clock st + busy w (n_calls st) n)%Z /\
  n_ports (rounds w env n st) = n_ports st /\
  n_calls (rounds w env n st) = (n_calls st + n)%nat /\
  n_procs (rounds w env n st) = n_procs st.
Proof.
  induction n as [|n IH]; intros st.
  - cbn. rewrite app_nil_r, Z.add_0_r, Nat.add_0_r. done.
  - cbn [rounds busy].
    destruct (IH (after_round w env st)) as (H1 & H2 & H3 & H4 & H5 & H6).
    destruct (after_round_fields w env st) as (R1 & R2 & R3 & R4 & R5 & R6).
    rewrite H1, H2, H3, H4, H5, H6, R1, R2, R3, R4, R5, R6.
    unfold round_events. cbn. rewrite <- app_assoc. cbn.
    repeat split; lia.
Qed.

Lemma busy_nonneg w k n : (0 <= busy w k n)%Z.
Proof. revert k. induction n as [|n IH]; intros k; cbn; [lia|]. specialize (IH (S k)). lia. Qed.

Lemma busy_lower w n : forall k, (Z.of_nat n * Z.of_N probe_interval <= busy w k n)%Z.
Proof.
  induction n as [|n IH]; intros k; [cbn; lia|].
  cbn [busy]. specialize (IH (S k)). lia.
Qed.

Lemma busy_succ w n : forall k,
  busy w k (S n) = (busy w k n + (Z.of_N (w_call_duration w (k + n)) + Z.of_N probe_interval))%Z.
Proof.
  induction n as [|n IH]; intros k.
  - cbn. rewrite Nat.add_0_r. lia.
  - cbn [busy] in *. rewrite (IH (S k)). replace (S k + n)%nat with (k + S n)%nat by lia. lia.
Qed.

(** What the loop does, told by the number of failed rounds. *)
Lemma probe_loop_run w env start st :
  exists n,
    (forall j, (j < n)%nat ->
       w_check_call w (n_calls st + j) probe_cmd = false /\
       (clock st + busy w (n_calls st) j - start < probe_timeout)%Z) /\
    ((clock st + busy w (n_calls st) n - start < probe_timeout)%Z /\
     w_check_call w (n_calls st + n) probe_cmd = true /\
     probe_loop w env start st
       = (Ok tt, after_probe w env (rounds w env n st))
     \/
     (probe_timeout <= clock st + busy w (n_calls st) n - start)%Z /\
     probe_loop w env start st
       = (Raise (RuntimeError msg_socks_failed), rounds w env n st)).
Proof.
  remember (Z.to_nat (probe_timeout - (clock st - start))) as m eqn:Hm.
  revert st Hm. induction m as [m IH] using lt_wf_ind. intros st Hm.
  rewrite probe_loop_step.
  destruct (clock st - start <? probe_timeout)%Z eqn:Ht.
  - apply Z.ltb_lt in Ht.
    destruct (w_check_call w (n_calls st) probe_cmd) eqn:Hc.
    + exists 0%nat. split; [lia|]. left. cbn. rewrite Nat.add_0_r.
      repeat split; [lia | done].
    + destruct (after_round_fields w env st) as (_ & _ & R3 & _ & R5 & _).
      destruct (IH (Z.to_nat (probe_timeout - (clock (after_round w env st) - start))))
        with (st := after_round w env st) as (n & Hfail & Hend);
        [rewrite R3; unfold probe_interval; lia | reflexivity |].
      rewrite R3, R5 in *.
      exists (S n). split.
      * intros [|j] Hj; [rewrite Nat.add_0_r; cbn; split; [done | lia]|].
        destruct (Hfail j ltac:(lia)) as [H1 H2].
        replace (n_calls st + S j)%nat with (S (n_calls st) + j)%nat by lia.
        split; [done|]. cbn [busy]. lia.
      * replace (n_calls st + S n)%nat with (S (n_calls st) + n)%nat by lia.
        cbn [busy rounds].
        destruct Hend as [(H1 & H2 & H3) | (H1 & H3)]; [left | right];
          repeat split; try done; lia.
  - apply Z.ltb_ge in Ht. exists 0%nat. split; [lia|]. right. cbn.
    split; [lia | done].
Qed.

Lemma busy_mono w k n m : (n <= m)%nat -> (busy w k n <= busy w k m)%Z.
Proof.
  induction 1 as [|m Hle IH]; [lia|].
  rewrite busy_succ. lia.
Qed.

Lemma after_probe_fields w env st :
  trace (after_probe w env st)
    = trace st ++ [CheckCall probe_cmd (Some env)] /\
  cleanups (after_probe w env st) = cleanups st /\
  n_calls (after_probe w env st) = S (n_calls st) /\
  n_procs (after_probe w env st) = n_procs st.
Proof.
  unfold after_probe, check_call.
  destruct (w_check_call w (n_calls st) probe_cmd); done.
Qed.

(** C3, as amended.  The readiness loop of [setup_torsocks] runs the probe,
    sleeps 0.1 s after each failure and goes on while fewer than ten
    seconds have passed on the clock since it started, the time the probes
    themselves take included.  If the probe first succeeds on its N-th
    attempt and the N-1 failed attempts with their sleeps took less than ten
    seconds, the loop returns after exactly N attempts.  If the probe never
    succeeds, the loop raises [RuntimeError] (the spec's ProxyNotReadyError)
    after at least one and at most one hundred attempts, no sooner than ten
    seconds after its start and no later than ten seconds plus the time of
    the last attempt and its sleep. *)
Theorem readiness_wait (w : World) (env : gmap string string) (st : State) :
  (forall N,
     first_success_at w (n_calls st) N ->
     (busy w (n_calls st) (N - 1) < probe_timeout)%Z ->
     exists st',
       probe_loop w env (clock st) st = (Ok tt, st') /\
       n_calls st' = (n_calls st + N)%nat /\
       emitted st st'
         = round_events env (N - 1) ++ [CheckCall probe_cmd (Some env)]) /\
  ((forall j, w_check_call w (n_calls st + j) probe_cmd = false) ->
   exists n st',
     probe_loop w env (clock st) st
       = (Raise (RuntimeError msg_socks_failed), st') /\
     (1 <= n <= 100)%nat /\
     n_calls st' = (n_calls st + n)%nat /\
     emitted st st' = round_events env n /\
     (probe_timeout <= clock st' - clock st)%Z /\
     (clock st' - clock st
      < probe_timeout + Z.of_N (w_call_duration w (n_calls st + (n - 1)))
        + Z.of_N probe_interval)%Z).
Proof.
  destruct (probe_loop_run w env (clock st) st) as (n & Hfail & Hend).
  destruct (rounds_fields w env n st) as (T & _ & C & _ & K & _).
  split.
  - intros N (Hpos & Hbefore & Hok) Hbusy.
    assert (n = N - 1)%nat as ->.
    { destruct (Nat.lt_trichotomy n (N - 1)) as [Hlt | [Heq | Hgt]]; [|done|].
      - destruct Hend as [(_ & Hc & _) | (Ht & _)].
        + rewrite (Hbefore n Hlt) in Hc. done.
        + pose proof (busy_mono w (n_calls st) n (N - 1) ltac:(lia)). lia.
      - destruct (Hfail (N - 1)%nat Hgt) as [Hc _]. congruence. }
    destruct Hend as [(_ & _ & Hrun) | (Ht & _)]; [|lia].
    eexists. split; [exact Hrun|].
    destruct (after_probe_fields w env (rounds w env (N - 1) st))
      as (T' & _ & K' & _).
    split; [rewrite K', K; lia|].
    apply emitted_app. rewrite T', T, <- app_assoc. done.
  - intros Hnever.
    destruct Hend as [(_ & Hc & _) | (Ht & Hrun)];
      [rewrite Hnever in Hc; done|].
    assert (n <> 0)%nat as Hn.
    { intros ->. cbn in Ht. unfold probe_timeout in Ht. lia. }
    destruct (Hfail (n - 1)%nat ltac:(lia)) as [_ Hlast].
    pose proof (busy_lower w (n - 1) (n_calls st)) as Hlow.
    pose proof (busy_succ w (n - 1) (n_calls st)) as Hsucc.
    replace (S (n - 1)) with n in Hsucc by lia.
    exists n. eexists. split; [exact Hrun|].
    rewrite C, K. unfold probe_timeout, probe_interval in *.
    repeat split; try lia.
    apply emitted_app. exact T.
Qed.

(** The theorem at work: on [flaky_world] the third attempt is the first to
    succeed and comes 1.2 s after the start; on [dead_world] the loop gives
    up. *)
Lemma readiness_wait_witness :
  (exists st',
     probe_loop flaky_world ∅ 0 (initial 0) = (Ok tt, st') /\
     n_calls st' = 3%nat /\
     emitted (initial 0) st'
       = round_events ∅ 2 ++ [CheckCall probe_cmd (Some ∅)]) /\
  (exists n st',
     probe_loop dead_world ∅ 0 (initial 0)
       = (Raise (RuntimeError msg_socks_failed), st') /\
     (1 <= n <= 100)%nat /\
     n_calls st' = n /\
     emitted (initial 0) st' = round_events ∅ n /\
     (10000 <= clock st' - 0)%Z /\
     (clock st' - 0 < 10000 + 3000 + 100)%Z).
Proof.
  split.
  - apply (proj1 (readiness_wait flaky_world ∅ (initial 0)) 3%nat).
    + split; [lia|]. split; [|reflexivity].
      intros [|[|j]] Hj; [reflexivity | reflexivity | cbn in Hj; lia].
    + reflexivity.
  - apply (proj2 (readiness_wait dead_world ∅ (initial 0))).
    intros j. reflexivity.
Defined.

(** C3, as stated, fails: on [slow_world] the probe would first succeed on
    its third attempt and 3 x 0.1 s is far below ten seconds, yet two
    failed probes of six seconds each use up the timeout and the loop
    raises without a third attempt. *)
Lemma readiness_wait_counterexample :
  ~ readiness_as_stated slow_world ∅ (initial 0) 3.
Proof.
  intros H. destruct H as (st' & Hrun & _).
  - split; [lia|]. split; [|reflexivity].
    intros [|[|j]] Hj; [reflexivity | reflexivity | cbn in Hj; lia].
  - reflexivity.
  - vm_compute in Hrun. discriminate.
Qed.

(** ** The helpers of [local] as trace transformers *)

Lemma add_events_nil st : add_events st [] = st.
Proof. destruct st. unfold add_events. cbn. by rewrite app_nil_r. Qed.

Lemma add_events_app st l1 l2 :
  add_events (add_events st l1) l2 = add_events st (l1 ++ l2).
Proof. unfold add_events. cbn. by rewrite app_assoc. Qed.

Lemma emit_add_events e st : emit e st = (Ok tt, add_events st [e]).
Proof. reflexivity. Qed.

Lemma for_each_events {A : Type} (body : A -> M unit)
    (ev : A -> list Event) (l : list A) :
  (forall x st, body x st = (Ok tt, add_events st (ev x))) ->
  forall st, for_each l body st = (Ok tt, add_events st (flat_map ev l)).
Proof.
  intros Hbody. induction l as [|x l IH]; intros st; cbn.
  - by rewrite add_events_nil.
  - unfold mbind, M_bind. rewrite Hbody, IH, add_events_app. done.
Qed.

Lemma format_script command :
  PyStr.format_ NICE_FAILURE [command] = script command.
Proof. reflexivity. Qed.

Lemma get_unsupported_tools_run w dns st :
  get_unsupported_tools w dns st
  = (Ok (w_make_temp w "unsup_bin"), add_events st (stub_events w dns)).
Proof.
  unfold get_unsupported_tools, stub_events.
  unfold mbind at 1, M_bind at 1. unfold make_temp at 1.
  unfold mbind at 1, M_bind at 1. rewrite emit_add_events.
  unfold mret at 1, M_ret at 1.
  unfold mbind at 1, M_bind at 1.
  erewrite for_each_events; [rewrite add_events_app; reflexivity|].
  intros command st0. rewrite format_script. unfold emit, add_events, mbind, M_bind; cbn.
  by rewrite <- app_assoc.
Qed.

Lemma sip_workaround_run w existing unsup st :
  sip_workaround w existing unsup st
  = (Ok (PyStr.join ":"
           (unsup :: w_make_temp w "sip_bin" ::
            filter (fun p => p ∉ protected) (PyStr.split ":" existing))),
     add_events st (sip_events w)).
Proof.
  unfold sip_workaround, sip_events.
  unfold mbind at 1, M_bind at 1. unfold make_temp at 1.
  unfold mbind at 1, M_bind at 1. rewrite emit_add_events.
  unfold mret at 1, M_ret at 1.
  unfold mbind at 1, M_bind at 1.
  erewrite for_each_events; [rewrite add_events_app; reflexivity|].
  intros directory st0. unfold copy_events.
  unfold mbind at 1, M_bind at 1. unfold listdir at 1.
  unfold mbind at 1, M_bind at 1. rewrite emit_add_events.
  unfold mret at 1, M_ret at 1.
  erewrite for_each_events; [rewrite add_events_app; reflexivity|].
  intros file st1. unfold copy, emit, add_events, mbind, M_bind, mret, M_ret; cbn.
  destruct (w_copy_ok w _); cbn; by rewrite <- ?app_assoc.
Qed.


Lemma sip_events_quiet w : Forall quiet (sip_events w).
Proof.
  unfold sip_events. constructor; [by split; intros []|].
  apply Forall_flat_map, Forall_forall. intros d _.
  unfold copy_events. constructor; [by split; intros []|].
  apply Forall_flat_map, Forall_forall. intros f _.
  destruct (w_copy_ok w _); repeat constructor; by intros [].
Qed.

Lemma setup_torsocks_run w env socks unsup st :
  let r := setup_torsocks w env socks unsup st in
  cleanups r.2 = cleanups st /\ n_procs r.2 = n_procs st /\
  ((exists mid n penv,
      Forall quiet mid /\
      (forall j, (j < n)%nat ->
         w_check_call w (n_calls st + j) probe_cmd = false) /\
      ((exists env',
          r.1 = Ok env' /\
          w_check_call w (n_calls st + n) probe_cmd = true /\
          (busy w (n_calls st) n < probe_timeout)%Z /\
          trace r.2 = trace st ++ torsocks_conf_write w socks :: mid ++
                        round_events penv n ++
                        [CheckCall probe_cmd (Some penv)])
       \/
       (r.1 = Raise (RuntimeError msg_socks_failed) /\
        trace r.2 = trace st ++ torsocks_conf_write w socks :: mid ++
                      round_events penv n)))
   \/
   (env !! "PATH" = None /\ r.1 = Raise (KeyError "PATH") /\
    trace r.2 = trace st ++ [torsocks_conf_write w socks])).
Proof.
  cbv zeta.
  remember (setup_torsocks w env socks unsup st) as r eqn:Hr.
  unfold setup_torsocks in Hr.
  set (env1 := match w_logfile w with Some _ => _ | None => _ end) in Hr.
  assert (Hpath : env1 !! "PATH" = env !! "PATH").
  { subst env1. destruct (w_logfile w); by simplify_map_eq. }
  unfold mbind at 1, M_bind at 1 in Hr. rewrite emit_add_events in Hr.
  fold (torsocks_conf w) in Hr. fold (torsocks_conf_write w socks) in Hr.
  unfold mbind at 1, M_bind at 1 in Hr.
  assert (Hloop : forall penv mid,
    Forall quiet mid ->
    let S0 := add_events st (torsocks_conf_write w socks :: mid) in
    let r := (start ← time; probe_loop w penv start ;; mret penv) S0 in
    cleanups r.2 = cleanups st /\ n_procs r.2 = n_procs st /\
    exists n,
      (forall j, (j < n)%nat ->
         w_check_call w (n_calls st + j) probe_cmd = false) /\
      ((r.1 = Ok penv /\
        w_check_call w (n_calls st + n) probe_cmd = true /\
        (busy w (n_calls st) n < probe_timeout)%Z /\
        trace r.2 = trace st ++ torsocks_conf_write w socks :: mid ++
                      round_events penv n ++
                      [CheckCall probe_cmd (Some penv)])
       \/
       (r.1 = Raise (RuntimeError msg_socks_failed) /\
        trace r.2 = trace st ++ torsocks_conf_write w socks :: mid ++
                      round_events penv n))).
  { intros penv mid Hq S0. cbv zeta.
    unfold mbind, M_bind, time. cbv beta iota.
    destruct (probe_loop_run w penv (clock S0) S0) as (n & Hfail & Hend).
    destruct (rounds_fields w penv n S0) as (T & C & _ & _ & K & P).
    destruct (after_probe_fields w penv (rounds w penv n S0))
      as (T' & C' & K' & P').
    destruct Hend as [(Hb & Hc & Hrun) | (Hb & Hrun)]; rewrite Hrun;
      unfold mret, M_ret; cbn [fst snd];
      subst S0; unfold add_events in *;
      cbn [trace cleanups clock n_calls n_procs] in *.
    - rewrite C', P', C, P. do 2 (split; [done|]).
      exists n. split; [intros j Hj; by apply Hfail|].
      left. split; [done|]. split; [done|]. split; [lia|].
      rewrite T', T, <- !app_assoc. done.
    - rewrite C, P. do 2 (split; [done|]).
      exists n. split; [intros j Hj; by apply Hfail|].
      right. split; [done|]. rewrite T, <- !app_assoc. done. }
  destruct (String.eqb (w_platform w) "darwin").
  - unfold mbind at 1, M_bind at 1 in Hr. unfold getitem in Hr.
    rewrite Hpath in Hr.
    destruct (env !! "PATH") as [existing|] eqn:He.
    + unfold mret at 1, M_ret at 1 in Hr. unfold mbind at 1, M_bind at 1 in Hr.
      rewrite sip_workaround_run in Hr. unfold mret at 1, M_ret at 1 in Hr.
      rewrite add_events_app in Hr. cbn [app] in Hr. subst r.
      destruct (Hloop (<["PATH" := PyStr.join ":"
                   (unsup :: w_make_temp w "sip_bin" ::
                    filter (fun p => p ∉ protected)
                      (PyStr.split ":" existing))]> env1)
                  (sip_events w) (sip_events_quiet w))
        as (HC & HP & n & Hfail & Hend).
      split; [exact HC|]. split; [exact HP|]. left.
      eexists _, n, _. split; [apply sip_events_quiet|]. split; [exact Hfail|].
      destruct Hend as [(H1 & H2 & H3 & H4) | (H1 & H2)]; [left | right]; eauto.
    + subst r. cbn. do 2 (split; [done|]). right. done.
  - unfold mret at 1, M_ret at 1 in Hr. subst r.
    destruct (Hloop env1 [] (List.Forall_nil _)) as (HC & HP & n & Hfail & Hend).
    split; [exact HC|]. split; [exact HP|]. left.
    eexists [], n, _. split; [done|]. split; [exact Hfail|].
    destruct Hend as [(H1 & H2 & H3 & H4) | (H1 & H2)]; [left | right]; eauto.
Qed.

(** ** [run_local_command] under inject-tcp *)

Lemma guarded_weaken R D (P Q : Prop) tr :
  (P -> Q) -> guarded R D P tr -> guarded R D Q tr.
Proof.
  revert P Q. induction tr as [|e tr IH]; intros P Q HPQ; [done|].
  cbn. intros [Hd Hg]. split; [tauto|].
  eapply IH; [|exact Hg]. tauto.
Qed.

Lemma guarded_seen R D (seen : Prop) tr : seen -> guarded R D seen tr.
Proof.
  revert seen. induction tr as [|e tr IH]; intros seen Hs; [done|].
  cbn. split; [done|]. apply IH. by left.
Qed.

Lemma guarded_skip R D seen l1 l2 :
  Forall (fun e => ~ D e) l1 -> guarded R D seen l2 ->
  guarded R D seen (l1 ++ l2).
Proof.
  intros Hq. revert seen. induction Hq as [|e l1 He Hq IH]; intros seen Hg; [done|].
  cbn. split; [done|]. apply IH. eapply guarded_weaken; [|exact Hg]. tauto.
Qed.

Lemma guarded_none R D seen l :
  Forall (fun e => ~ D e) l -> guarded R D seen l.
Proof.
  intros Hq. rewrite <- (app_nil_r l). by apply guarded_skip.
Qed.

Lemma stub_events_quiet w dns : Forall quiet (stub_events w dns).
Proof.
  unfold stub_events. constructor; [by split; intros []|].
  apply Forall_flat_map, Forall_forall. intros c _.
  repeat constructor; by intros [].
Qed.

Lemma round_events_no_spawn env n :
  Forall (fun e => ~ is_spawn e) (round_events env n).
Proof.
  unfold round_events. induction n as [|n IH]; cbn; [done|].
  repeat constructor; try by intros []. exact IH.
Qed.

Lemma quiet_no_probe l : Forall quiet l -> Forall (fun e => ~ is_probe e) l.
Proof. intros H. eapply Forall_impl; [exact H|]. by intros e []. Qed.

Lemma quiet_no_spawn l : Forall quiet l -> Forall (fun e => ~ is_spawn e) l.
Proof. intros H. eapply Forall_impl; [exact H|]. by intros e []. Qed.

Lemma bind_ok {A B : Type} (m : M A) (k : A -> M B) st a st1 :
  m st = (Ok a, st1) -> (m ≫= k) st = k a st1.
Proof. intros H. unfold mbind, M_bind. by rewrite H. Qed.

Lemma bind_raise {A B : Type} (m : M A) (k : A -> M B) st e st1 :
  m st = (Raise e, st1) -> (m ≫= k) st = (Raise e, st1).
Proof. intros H. unfold mbind, M_bind. by rewrite H. Qed.

Lemma fmap_ok {A B : Type} (f : A -> B) (m : M A) st a st1 :
  m st = (Ok a, st1) -> (f <$> m) st = (Ok (f a), st1).
Proof. intros H. unfold fmap, M_fmap. by rewrite H. Qed.

(** A probe that starts before the timeout and gets through ends the loop
    with a return, however long the probe itself takes. *)
Lemma loop_ready w (penv : gmap string string) S0 N :
  first_success_at w (n_calls S0) N ->
  (busy w (n_calls S0) (N - 1) < probe_timeout)%Z ->
  ((start ← time; probe_loop w penv start ;; mret penv) S0).1 = Ok penv.
Proof.
  intros (Hpos & Hbefore & Hok) Hbusy.
  unfold mbind, M_bind, time. cbv beta iota.
  destruct (probe_loop_run w penv (clock S0) S0) as (n & Hfail & Hend).
  assert (Hn : (n <= N - 1)%nat).
  { destruct (Nat.le_gt_cases n (N - 1)) as [Hle | Hgt]; [done|].
    destruct (Hfail (N - 1)%nat Hgt) as [Hc _]. congruence. }
  pose proof (busy_mono w (n_calls S0) n (N - 1) Hn) as Hm.
  destruct Hend as [(_ & _ & ->) | (Hlate & _)]; [done | lia].
Qed.

Lemma setup_torsocks_ready w env socks unsup st N :
  is_Some (env !! "PATH") ->
  first_success_at w (n_calls st) N ->
  (busy w (n_calls st) (N - 1) < probe_timeout)%Z ->
  exists env', (setup_torsocks w env socks unsup st).1 = Ok env'.
Proof.
  intros [existing He] Hfirst Hbusy. unfold setup_torsocks.
  set (env1 := match w_logfile w with Some _ => _ | None => _ end).
  assert (Hpath : env1 !! "PATH" = env !! "PATH").
  { subst env1. destruct (w_logfile w); by simplify_map_eq. }
  rewrite (bind_ok _ _ _ _ _ (emit_add_events _ st)). cbv beta.
  destruct (String.eqb (w_platform w) "darwin").
  - unfold getitem. rewrite Hpath, He.
    erewrite (bind_ok (mret existing ≫= _))
      by (erewrite bind_ok by reflexivity; cbv beta;
          erewrite bind_ok by apply sip_workaround_run; reflexivity).
    eexists. by apply (loop_ready _ _ _ N).
  - rewrite (bind_ok (mret env1) _ _ env1 _ eq_refl).
    eexists. by apply (loop_ready _ _ _ N).
Qed.

(** C4, as amended.  In every inject-tcp run of [run_local_command]: each
    probe of the SOCKS path comes after the write of the torsocks
    configuration file; the spawn of the user command comes after a probe;
    a run that raises has spawned nothing.  With PATH set in the
    launcher's environment, a run in which no probe that starts before the
    timeout succeeds raises [RuntimeError "SOCKS network proxying failed
    to start..."] (the spec's ProxyNotReadyError).  Without PATH the run
    raises the [KeyError] of line 152 once the stubs are written, before
    any configuration is written or any probe run.  With PATH set, a run
    whose first successful probe starts before the timeout returns the
    process and has spawned the user command under torsocks, however long
    that probe has taken. *)
Theorem inject_tcp_launch_order (w : World) (ri : RemoteInfo) (args : Args)
    (env_overrides : gmap string string) (socks_port : N) (ssh : SSH)
    (st : State) (Hmethod : method args = "inject-tcp") :
  let r := run_local_command w ri args env_overrides socks_port ssh st in
  let tr := emitted st r.2 in
  preceded_by (eq (torsocks_conf_write w socks_port)) is_probe tr /\
  preceded_by is_probe is_spawn tr /\
  (forall e, r.1 = Raise e -> Forall (fun x => ~ is_spawn x) tr) /\
  ((forall j, w_check_call w (n_calls st + j) probe_cmd = true ->
              (probe_timeout <= busy w (n_calls st) j)%Z) ->
   exists e, r.1 = Raise e /\
             (is_Some ((env_overrides ∪ w_environ w) !! "PATH") ->
              e = RuntimeError msg_socks_failed)) /\
  ((env_overrides ∪ w_environ w) !! "PATH" = None ->
   r.1 = Raise (KeyError "PATH") /\ tr = stub_events w false) /\
  (forall N,
     is_Some ((env_overrides ∪ w_environ w) !! "PATH") ->
     first_success_at w (n_calls st) N ->
     (busy w (n_calls st) (N - 1) < probe_timeout)%Z ->
     r.1 = Ok (n_procs st) /\
     exists env, Popen ("torsocks" :: user_command args) env ∈ tr).
Proof.
  cbv zeta.
  remember (run_local_command w ri args env_overrides socks_port ssh st)
    as r eqn:Hr.
  unfold run_local_command in Hr. rewrite Hmethod in Hr.
  change (String.eqb "inject-tcp" "inject-tcp") with true in Hr.
  cbn [negb] in Hr.
  rewrite (bind_ok _ _ _ _ _ (get_unsupported_tools_run w false st)) in Hr.
  pose proof (stub_events_quiet w false) as Hstub.
  unfold getitem in Hr. cbv beta in Hr.
  set (env0 := <["PROMPT_COMMAND" := prompt_command (context args)]>
                 (env_overrides ∪ w_environ w)) in Hr.
  assert (Hp : env0 !! "PATH" = (env_overrides ∪ w_environ w) !! "PATH")
    by (subst env0; by rewrite lookup_insert_ne).
  destruct (env0 !! "PATH") as [existing|].
  - rewrite (bind_ok (mret existing) _ _ existing _ eq_refl) in Hr.
    cbv beta in Hr. fold (user_command args) in Hr.
    match type of Hr with
    | context [setup_torsocks w ?env ?p ?u] =>
        pose proof (setup_torsocks_run w env p u
                      (add_events st (stub_events w false))) as Hs;
        pose proof (fun N => setup_torsocks_ready w env p u
                      (add_events st (stub_events w false)) N
                      ltac:(by rewrite lookup_insert_eq)) as Hready;
        destruct (setup_torsocks w env p u
                    (add_events st (stub_events w false)))
          as [res S2] eqn:Hrun
    end.
    cbv zeta in Hs.
    cbn [fst snd add_events trace cleanups n_calls n_procs] in Hs, Hready.
    destruct Hs as (HC & HP & [(mid & n & penv & Hq & Hfail & Hend) | (Hnone & _)]);
      [|by rewrite lookup_insert_eq in Hnone].
    destruct Hend as [(env' & -> & Hok & Hb & HT) | (-> & HT)].
    + erewrite bind_ok in Hr
        by (erewrite bind_ok by exact Hrun; apply fmap_ok; reflexivity).
      cbv beta in Hr.
      erewrite bind_ok in Hr by reflexivity.
      cbv beta iota in Hr. unfold mret, M_ret in Hr.
      subst r. cbn [fst snd trace].
      erewrite emitted_app
        by (rewrite HT, <- !app_assoc; cbn [app]; rewrite <- !app_assoc; reflexivity).
      split; [|split; [|split; [|split; [|split]]]].
      * apply guarded_preceded, guarded_skip; [by apply quiet_no_probe|].
        cbn. split; [by intros []|]. apply guarded_seen. by right.
      * apply guarded_preceded, guarded_skip; [by apply quiet_no_spawn|].
        cbn. split; [by intros []|].
        apply guarded_skip; [by apply quiet_no_spawn|].
        apply guarded_skip; [apply round_events_no_spawn|].
        cbn. tauto.
      * intros e [=].
      * intros Hlate. specialize (Hlate n Hok). lia.
      * rewrite <- Hp. intros [=].
      * intros N _ _ _. split; [by rewrite HP|].
        exists env'. apply elem_of_app. right.
        apply elem_of_cons. right. apply elem_of_app. right.
        apply elem_of_app. right.
        apply elem_of_cons. right. apply elem_of_cons. by left.
    + erewrite bind_raise in Hr
        by (erewrite bind_raise by exact Hrun; reflexivity).
      subst r. cbn [fst snd].
      erewrite emitted_app by (rewrite HT, <- !app_assoc; reflexivity).
      assert (Hns : Forall (fun x => ~ is_spawn x)
                (stub_events w false ++
                 torsocks_conf_write w socks_port :: mid ++ round_events penv n)).
      { apply Forall_app. split; [by apply quiet_no_spawn|].
        constructor; [by intros []|]. apply Forall_app.
        split; [by apply quiet_no_spawn | apply round_events_no_spawn]. }
      split; [|split; [|split; [|split; [|split]]]].
      * apply guarded_preceded, guarded_skip; [by apply quiet_no_probe|].
        cbn. split; [by intros []|]. apply guarded_seen. by right.
      * apply guarded_preceded, guarded_none. exact Hns.
      * intros _ _. exact Hns.
      * intros _. eexists. split; [reflexivity | done].
      * rewrite <- Hp. intros [=].
      * intros N _ Hfirst Hbusy.
        destruct (Hready N Hfirst Hbusy) as [env' Henv]. discriminate Henv.
  - rewrite (bind_raise (raise (KeyError "PATH")) _ _ _ _ eq_refl) in Hr.
    subst r. cbn [fst snd].
    erewrite emitted_app by reflexivity.
    split; [|split; [|split; [|split; [|split]]]].
    + apply guarded_preceded, guarded_none. by apply quiet_no_probe.
    + apply guarded_preceded, guarded_none. by apply quiet_no_spawn.
    + intros _ _. by apply quiet_no_spawn.
    + intros _. eexists. split; [reflexivity|]. rewrite <- Hp. by intros [? [=]].
    + done.
    + intros N Hsome. rewrite <- Hp in Hsome. by destruct Hsome as [? [=]].
Qed.

(** ** The launcher, whatever the method *)

Lemma extends_ret {A : Type} (a : A) : extends (mret a).
Proof. intros st. exists []. cbn. by rewrite app_nil_r. Qed.

Lemma extends_raise {A : Type} e : extends (@raise A e).
Proof. intros st. exists []. cbn. by rewrite app_nil_r. Qed.

Lemma extends_bind {A B : Type} (m : M A) (k : A -> M B) :
  extends m -> (forall a, extends (k a)) -> extends (m ≫= k).
Proof.
  intros Hm Hk st. unfold mbind, M_bind.
  destruct (Hm st) as [l Hl]. destruct (m st) as [[a|e] st1]; cbn in Hl.
  - destruct (Hk a st1) as [l2 Hl2]. exists (l ++ l2).
    by rewrite Hl2, Hl, app_assoc.
  - by exists l.
Qed.

Lemma extends_fmap {A B : Type} (f : A -> B) (m : M A) :
  extends m -> extends (f <$> m).
Proof.
  intros Hm st. unfold fmap, M_fmap.
  destruct (Hm st) as [l Hl]. destruct (m st) as [[a|e] st1]; by exists l.
Qed.

Lemma extends_emit e : extends (emit e).
Proof. intros st. by exists [e]. Qed.

Lemma extends_add_cleanup name action : extends (add_cleanup name action).
Proof. intros st. by exists [AddCleanup name action]. Qed.

Lemma extends_popen argv env : extends (popen argv env).
Proof. intros st. by exists [Popen argv env]. Qed.

Lemma extends_connect_sshuttle w ssh : extends (connect_sshuttle w ssh).
Proof.
  intros st. exists [ConnectSshuttle ssh].
  unfold connect_sshuttle, mbind, M_bind, emit, guard_ok.
  by destruct (w_sshuttle_ok w).
Qed.

Lemma extends_getitem env key : extends (getitem env key).
Proof.
  unfold getitem. destruct (env !! key); [apply extends_ret | apply extends_raise].
Qed.

Lemma extends_setup_torsocks w env socks unsup :
  extends (setup_torsocks w env socks unsup).
Proof.
  intros st.
  destruct (setup_torsocks_run w env socks unsup st)
    as (_ & _ & [(mid & n & penv & _ & _ & [(env' & _ & _ & _ & HT) | (_ & HT)])
                | (_ & _ & HT)]);
    rewrite HT; eauto.
Qed.

(** What the launcher does first, whatever the method: the stubs, with
    DNS taken as proxied unless the method is inject-tcp. *)
Lemma run_local_command_stubs w ri args env_overrides socks_port ssh st :
  exists rest,
    emitted st (run_local_command w ri args env_overrides socks_port ssh st).2
    = stub_events w (negb (String.eqb (method args) "inject-tcp")) ++ rest.
Proof.
  unfold run_local_command.
  rewrite (bind_ok _ _ _ _ _ (get_unsupported_tools_run w _ st)).
  match goal with
  | |- context [(?k ?a) (add_events st ?l)] =>
      assert (Hk : extends (k a))
  end.
  { cbv beta. apply extends_bind; [apply extends_getitem|]. intros existing.
    apply extends_bind.
    - destruct (String.eqb (method args) "inject-tcp").
      + apply extends_bind; [apply extends_setup_torsocks|]. intros env'.
        apply extends_fmap, extends_popen.
      + destruct (String.eqb (method args) "vpn-tcp").
        * apply extends_bind; [apply extends_connect_sshuttle|]. intros _.
          apply extends_fmap, extends_popen.
        * apply extends_ret.
    - intros p. apply extends_bind; [apply extends_add_cleanup|]. intros _.
      destruct p; [apply extends_ret | apply extends_raise]. }
  destruct (Hk (add_events st (stub_events w
              (negb (String.eqb (method args) "inject-tcp"))))) as [rest Hrest].
  exists rest. apply emitted_app. cbv beta in Hrest |- *.
  rewrite Hrest. cbn [add_events trace]. by rewrite app_assoc.
Qed.

(** C4, as stated, fails in its last part: on [sluggish_world] the one
    probe takes fifteen seconds, so no round trip is over within the ten
    seconds of the timeout, yet it started in time and succeeded, and the
    user command is spawned. *)
Lemma inject_tcp_launch_order_counterexample :
  ~ fails_without_timely_round_trip sluggish_world pod
      (args_of "inject-tcp") ∅ 40001 {| port := 40000 |} (initial 0).
Proof.
  intros H. destruct H as [[e He] _].
  - intros j _. pose proof (busy_nonneg sluggish_world 0 j) as Hb.
    cbn [n_calls initial]. change (Z.of_N _) with 15000%Z.
    unfold probe_timeout. lia.
  - vm_compute in He. discriminate.
Qed.

Lemma inject_tcp_launch_order_witness :
  preceded_by (eq (torsocks_conf_write linux_world 40001)) is_probe
    (emitted (initial 0)
       (run_local_command linux_world pod (args_of "inject-tcp") ∅ 40001
          {| port := 40000 |} (initial 0)).2).
Proof.
  exact (proj1 (inject_tcp_launch_order linux_world pod
                  (args_of "inject-tcp") ∅ 40001 {| port := 40000 |}
                  (initial 0) eq_refl)).
Defined.

(** C9, as amended.  For every method other than inject-tcp and vpn-tcp,
    [run_local_command] raises and spawns no process, so a successful
    return implies one of these two methods.  With PATH set the error is
    the unbound local [p], raised by the final [return p]: by then the
    cleanup "Terminate local process", whose closure holds the unbound
    [p], has been registered.  Without PATH the error is the [KeyError] of
    line 152 and nothing has been registered. *)
Theorem other_methods_raise (w : World) (ri : RemoteInfo) (args : Args)
    (env_overrides : gmap string string) (socks_port : N) (ssh : SSH)
    (st : State)
    (Hinject : method args <> "inject-tcp")
    (Hvpn : method args <> "vpn-tcp") :
  let r := run_local_command w ri args env_overrides socks_port ssh st in
  let registration :=
    ("Terminate local process", TerminateIfAlive None) in
  (exists e, r.1 = Raise e) /\
  Forall (fun x => ~ is_spawn x) (emitted st r.2) /\
  match (env_overrides ∪ w_environ w) !! "PATH" with
  | Some _ =>
      r.1 = Raise (UnboundLocalError "p") /\
      cleanups r.2 = cleanups st ++ [registration] /\
      emitted st r.2
        = stub_events w true ++ [AddCleanup registration.1 registration.2]
  | None =>
      r.1 = Raise (KeyError "PATH") /\
      cleanups r.2 = cleanups st /\
      emitted st r.2 = stub_events w true
  end.
Proof.
  cbv zeta.
  remember (run_local_command w ri args env_overrides socks_port ssh st)
    as r eqn:Hr.
  unfold run_local_command in Hr.
  apply String.eqb_neq in Hinject, Hvpn. rewrite Hinject, Hvpn in Hr.
  cbn [negb] in Hr.
  rewrite (bind_ok _ _ _ _ _ (get_unsupported_tools_run w true st)) in Hr.
  pose proof (stub_events_quiet w true) as Hstub.
  unfold getitem in Hr. cbv beta in Hr.
  set (env0 := <["PROMPT_COMMAND" := prompt_command (context args)]>
                 (env_overrides ∪ w_environ w)) in Hr.
  assert (Hp : env0 !! "PATH" = (env_overrides ∪ w_environ w) !! "PATH")
    by (subst env0; by rewrite lookup_insert_ne).
  rewrite <- Hp.
  destruct (env0 !! "PATH") as [existing|].
  - rewrite (bind_ok (mret existing) _ _ existing _ eq_refl) in Hr.
    cbv beta in Hr.
    rewrite (bind_ok (mret None) _ _ None _ eq_refl) in Hr.
    cbv beta in Hr.
    erewrite bind_ok in Hr by reflexivity.
    cbv beta iota in Hr. subst r. cbn [fst snd raise cleanups add_events].
    erewrite emitted_app by (cbn [trace add_events]; rewrite <- app_assoc; reflexivity).
    split; [by eexists|]. split; [|done].
    apply Forall_app. split; [by apply quiet_no_spawn|].
    repeat constructor. by intros [].
  - rewrite (bind_raise (raise (KeyError "PATH")) _ _ _ _ eq_refl) in Hr.
    subst r. cbn [fst snd cleanups add_events].
    erewrite emitted_app by reflexivity.
    split; [by eexists|]. split; [by apply quiet_no_spawn | done].
Qed.

Lemma other_methods_raise_witness :
  (run_local_command linux_world pod (args_of "container") ∅ 40001
     {| port := 40000 |} (initial 0)).1
  = Raise (UnboundLocalError "p").
Proof.
  exact (proj1 (proj2 (proj2
    (other_methods_raise linux_world pod (args_of "container") ∅ 40001
       {| port := 40000 |} (initial 0)
       ltac:(discriminate) ltac:(discriminate))))).
Defined.

(** C9, as stated, fails: in the container run below the trace holds the
    registration of "Terminate local process", made before the error. *)
Lemma other_methods_raise_counterexample :
  ~ raises_before_registering linux_world pod (args_of "container") ∅ 40001
      {| port := 40000 |} (initial 0).
Proof.
  intros (_ & _ & Hnone). cbv zeta in Hnone.
  apply (proj1 (List.Forall_forall _ _) Hnone
           (AddCleanup "Terminate local process" (TerminateIfAlive None)));
    [|exact I].
  vm_compute. repeat (first [left; reflexivity | right]).
Qed.

(** ** [sip_workaround] and the PATH *)

Lemma split_no_sep c s : mentions c s = false -> PyStr.split c s = [s].
Proof.
  induction s as [|x s IH]; [done|]. cbn.
  destruct (PyStr.ascii_eqb x c); [done|]. cbn. intros H. by rewrite IH.
Qed.

Lemma split_append c a b :
  mentions c a = false ->
  PyStr.split c (a +:+ String c b) = a :: PyStr.split c b.
Proof.
  induction a as [|x a IH].
  - intros _. change (EmptyString +:+ String c b) with (String c b).
    cbn. unfold PyStr.ascii_eqb. by rewrite Ascii.eqb_refl.
  - cbn [mentions]. destruct (PyStr.ascii_eqb x c) eqn:Hx; [done|].
    cbn [orb]. intros H.
    change (String x a +:+ String c b) with (String x (a +:+ String c b)).
    cbn [PyStr.split]. rewrite Hx, IH by done. done.
Qed.

Lemma split_join c l :
  l <> [] -> Forall (fun s => mentions c s = false) l ->
  PyStr.split c (PyStr.join (String c EmptyString) l) = l.
Proof.
  intros Hne Hl. induction Hl as [|x l Hx Hl IH]; [done|].
  destruct l as [|y l].
  - cbn. by apply split_no_sep.
  - change (PyStr.join (String c EmptyString) (x :: y :: l))
      with (x +:+ String c (PyStr.join (String c EmptyString) (y :: l))).
    rewrite split_append by done. by rewrite IH.
Qed.

Lemma split_fields c s : Forall (fun f => mentions c f = false) (PyStr.split c s).
Proof.
  induction s as [|x s IH]; [by repeat constructor|].
  cbn [PyStr.split]. destruct (PyStr.ascii_eqb x c) eqn:Hx.
  - by constructor.
  - destruct (PyStr.split c s) as [|f fs]; [by repeat constructor; cbn; rewrite Hx|].
    apply Forall_cons in IH as [Hf Hfs]. constructor; [|done].
    cbn. by rewrite Hx.
Qed.

(** The PATH that [sip_workaround] returns, entry by entry. *)
Lemma sip_workaround_entries w existing unsup st :
  mentions ":" unsup = false ->
  mentions ":" (w_make_temp w "sip_bin") = false ->
  exists path,
    sip_workaround w existing unsup st
      = (Ok path, add_events st (sip_events w)) /\
    PyStr.split ":" path
      = unsup :: w_make_temp w "sip_bin" ::
        filter (fun p => p ∉ protected) (PyStr.split ":" existing).
Proof.
  intros Hu Hb. eexists. split; [apply sip_workaround_run|].
  apply (split_join ":"); [done|].
  repeat (constructor; [done|]).
  apply Forall_forall. intros p [_ Hp]%list_elem_of_filter.
  pose proof (split_fields ":" existing) as Hf.
  rewrite Forall_forall in Hf. by apply Hf.
Qed.

Lemma protected_members p :
  p ∈ protected <->
  p = "/bin" \/ p = "/sbin" \/ p = "/usr/sbin" \/ p = "/usr/bin".
Proof.
  unfold protected. rewrite !elem_of_union, !elem_of_singleton. tauto.
Qed.

(** C10.  Whatever the input PATH, the PATH returned by [sip_workaround]
    is the unsupported-tools directory, the temporary directory and then
    the entries of the input PATH that are not protected, in their
    original order; none of its entries is /bin, /sbin, /usr/sbin or
    /usr/bin.  The two directory names come from [runner.make_temp]: they
    hold no colon and are not themselves protected directories. *)
Theorem sip_workaround_removes_protected (w : World)
    (existing_paths unsupported_tools_path : string) (st : State)
    (Hunsup : mentions ":" unsupported_tools_path = false)
    (Hbin : mentions ":" (w_make_temp w "sip_bin") = false)
    (Hunsup_free : unsupported_tools_path ∉ protected)
    (Hbin_free : w_make_temp w "sip_bin" ∉ protected) :
  exists path st',
    sip_workaround w existing_paths unsupported_tools_path st
      = (Ok path, st') /\
    (forall p, p ∈ PyStr.split ":" path ->
       p <> "/bin" /\ p <> "/sbin" /\ p <> "/usr/sbin" /\ p <> "/usr/bin") /\
    take 2 (PyStr.split ":" path)
      = [unsupported_tools_path; w_make_temp w "sip_bin"] /\
    drop 2 (PyStr.split ":" path)
      = filter (fun p => p ∉ protected) (PyStr.split ":" existing_paths) /\
    sublist (drop 2 (PyStr.split ":" path)) (PyStr.split ":" existing_paths).
Proof.
  destruct (sip_workaround_entries w existing_paths unsupported_tools_path
              st Hunsup Hbin) as (path & Hrun & Hsplit).
  exists path, (add_events st (sip_events w)). split; [exact Hrun|].
  rewrite Hsplit. cbn [take drop].
  split; [|split; [done|split; [done|apply sublist_filter]]].
  intros p Hp.
  assert (Hfree : p ∉ protected).
  { apply elem_of_cons in Hp as [-> | Hp]; [done|].
    apply elem_of_cons in Hp as [-> | Hp]; [done|].
    by apply list_elem_of_filter in Hp as [Hp _]. }
  rewrite protected_members in Hfree. tauto.
Qed.

Lemma sip_workaround_removes_protected_witness :
  exists path st',
    sip_workaround mac_world
      "/tmp/tel-x/unsup_bin:/usr/local/bin:/usr/bin:/opt/bin:/bin"
      "/tmp/tel-x/unsup_bin" (initial 0) = (Ok path, st') /\
    drop 2 (PyStr.split ":" path)
      = ["/tmp/tel-x/unsup_bin"; "/usr/local/bin"; "/opt/bin"].
Proof.
  destruct (sip_workaround_removes_protected mac_world
              "/tmp/tel-x/unsup_bin:/usr/local/bin:/usr/bin:/opt/bin:/bin"
              "/tmp/tel-x/unsup_bin" (initial 0))
    as (path & st' & Hrun & _ & _ & Hdrop & _).
  - reflexivity.
  - reflexivity.
  - rewrite protected_members. intros [H | [H | [H | H]]]; discriminate.
  - rewrite protected_members. intros [H | [H | [H | H]]]; discriminate.
  - exists path, st'. split; [exact Hrun|]. rewrite Hdrop.
    vm_compute. reflexivity.
Defined.






(** ** The stubs and the docker interface *)

(** C7.  [get_unsupported_tools] writes one script per shadowed command
    into the directory [unsup_bin] and makes it executable (mode 0o755);
    the script is [NICE_FAILURE] with the command's name in it: it echoes
    "<command> is not supported under Telepresence." and ends with
    [exit 55].  The shadowed commands are ping and traceroute when DNS is
    proxied, and nslookup, dig and host as well when it is not; the
    launcher asks for the latter exactly when the method is inject-tcp. *)
Theorem unsupported_tool_stubs (w : World) (dns_supported : bool)
    (st : State) (ri : RemoteInfo) (args : Args)
    (env_overrides : gmap string string) (socks_port : N) (ssh : SSH) :
  let dir := w_make_temp w "unsup_bin" in
  get_unsupported_tools w dns_supported st
    = (Ok dir,
       add_events st
         (MakeTemp "unsup_bin" ::
          flat_map (fun c => [WriteFile (dir +:+ "/" +:+ c) (script c);
                              Chmod (dir +:+ "/" +:+ c) mode_0o755])
                   (commands dns_supported))) /\
  (forall c, script c = PyStr.format_ NICE_FAILURE [c]) /\
  commands dns_supported
    = (if dns_supported then ["ping"; "traceroute"]
       else ["ping"; "traceroute"; "nslookup"; "dig"; "host"]) /\
  N.land mode_0o755 73 = 73%N /\
  (exists rest,
     emitted st
       (run_local_command w ri args env_overrides socks_port ssh st).2
     = stub_events w (negb (String.eqb (method args) "inject-tcp")) ++ rest).
Proof.
  cbv zeta. split; [apply get_unsupported_tools_run|].
  split; [done|]. split; [by destruct dns_supported|]. split; [done|].
  apply run_local_command_stubs.
Qed.

Lemma docker_interface_linux_run w st :
  let missing := w_depend w ["ip"; "ifconfig"] in
  (docker_interface_linux w st).1
  = (if negb (PyStr.mem "ip" missing) then address_from w ip_cmd
     else if negb (PyStr.mem "ifconfig" missing)
          then address_from w ifconfig_cmd
          else Raise (Fail msg_no_tool)) /\
  emitted st (docker_interface_linux w st).2
  = Depend ["ip"; "ifconfig"] ::
    (if negb (PyStr.mem "ip" missing) then [GetOutput ip_cmd]
     else if negb (PyStr.mem "ifconfig" missing)
          then [GetOutput ifconfig_cmd]
          else []).
Proof.
  cbv zeta. unfold docker_interface_linux, address_from, first_address.
  unfold_ops.
  destruct (negb (PyStr.mem "ip" _)); cbn [fst snd].
  - destruct (w_get_output w ip_cmd) as [out|]; cbn [fst snd];
      [destruct (Re.findall Re.ipv4 out)|];
      cbn [fst snd trace]; (split; [done|]);
      apply emitted_app; by rewrite <- app_assoc.
  - destruct (negb (PyStr.mem "ifconfig" _)); cbn [fst snd].
    + destruct (w_get_output w ifconfig_cmd) as [out|]; cbn [fst snd];
        [destruct (Re.findall Re.ipv4 out)|];
        cbn [fst snd trace]; (split; [done|]);
        apply emitted_app; by rewrite <- app_assoc.
    + cbn [fst snd trace]. split; [done|]. by apply emitted_app.
Qed.

(** C5.  The Linux branch of the container method asks [runner.depend]
    about "ip" and "ifconfig" in one call and prefers "ip": with "ip"
    present it reads [ip addr show dev docker0] whether or not "ifconfig"
    is there, with only "ifconfig" present it reads [ifconfig docker0],
    and the binding is the first match of the IPv4 pattern in what it
    read.  With both tools missing it fails with the message of lines
    79-82 (the spec's DependencyError); when the output holds no match it
    fails with "No interface for docker found" (the spec's
    ResolutionError). *)
Theorem docker_interface_resolution (w : World) (st : State) :
  let missing := w_depend w ["ip"; "ifconfig"] in
  let r := docker_interface_linux w st in
  (PyStr.mem "ip" missing = false ->
   emitted st r.2 = [Depend ["ip"; "ifconfig"]; GetOutput ip_cmd] /\
   r.1 = address_from w ip_cmd /\
   forall w', PyStr.mem "ip" (w_depend w' ["ip"; "ifconfig"]) = false ->
              w_get_output w' ip_cmd = w_get_output w ip_cmd ->
              (docker_interface_linux w' st).1 = r.1) /\
  (PyStr.mem "ip" missing = true -> PyStr.mem "ifconfig" missing = false ->
   emitted st r.2 = [Depend ["ip"; "ifconfig"]; GetOutput ifconfig_cmd] /\
   r.1 = address_from w ifconfig_cmd) /\
  (PyStr.mem "ip" missing = true -> PyStr.mem "ifconfig" missing = true ->
   emitted st r.2 = [Depend ["ip"; "ifconfig"]] /\
   r.1 = Raise (Fail msg_no_tool)) /\
  (forall out, Re.findall Re.ipv4 out = [] ->
               first_address out = Raise (Fail msg_no_interface)) /\
  (forall out first rest, Re.findall Re.ipv4 out = first :: rest ->
                          first_address out = Ok first).
Proof.
  cbv zeta.
  destruct (docker_interface_linux_run w st) as [Hr Ht]. cbv zeta in Hr, Ht.
  split; [|split; [|split; [|split]]].
  - intros H. rewrite H in Hr, Ht. split; [done|]. split; [done|].
    intros w' H' Hout.
    destruct (docker_interface_linux_run w' st) as [Hr' _]. cbv zeta in Hr'.
    rewrite H' in Hr'. rewrite Hr, Hr'. unfold address_from. by rewrite Hout.
  - intros H1 H2. rewrite H1, H2 in Hr, Ht. done.
  - intros H1 H2. rewrite H1, H2 in Hr, Ht. done.
  - intros out H. unfold first_address. by rewrite H.
  - intros out first rest H. unfold first_address. by rewrite H.
Qed.

Lemma docker_interface_resolution_witness :
  (docker_interface_linux linux_world (initial 0)).1 = Ok "172.17.0.1".
Proof.
  destruct (proj1 (docker_interface_resolution linux_world (initial 0))
              eq_refl) as (_ & Hr & _).
  rewrite Hr. vm_compute. reflexivity.
Defined.

Lemma socat_cmd_eq ssh addr :
  socat_cmd ssh addr
  = Argv ["socat";
          "TCP4-LISTEN:" +:+ PyStr.str (port ssh) +:+ ",bind=" +:+ addr
            +:+ ",reuseaddr,fork";
          "TCP4:127.0.0.1:" +:+ PyStr.str (port ssh)].
Proof. unfold socat_cmd. cbn. by rewrite append_empty. Qed.

(** C6.  Method container on Linux, with docker0 at 172.17.0.1: the tool
    that is present lists the interface, the first address of the listing
    is 172.17.0.1, and that is the binding.  [connect] then requires
    socat and launches it listening on the SSH local port at 172.17.0.1
    and forwarding to the same port on 127.0.0.1, before it waits for
    SSH. *)
Theorem container_linux_relay (w : World) (ri : RemoteInfo) (args : Args)
    (st : State) (tool : list string) (out : string)
    (Hmethod : method args = "container")
    (Hplatform : w_platform w = "linux")
    (Htool :
       let missing := w_depend w ["ip"; "ifconfig"] in
       (PyStr.mem "ip" missing = false /\ tool = ip_cmd) \/
       (PyStr.mem "ip" missing = true /\
        PyStr.mem "ifconfig" missing = false /\ tool = ifconfig_cmd))
    (Hout : w_get_output w tool = Some out)
    (Haddr : head (Re.findall Re.ipv4 out) = Some "172.17.0.1")
    (Hsocat : w_require w ["socat"] = true) :
  let ssh := {| port := w_free_port w (n_ports st) |} in
  (forall s, (docker_interface_linux w s).1 = Ok "172.17.0.1") /\
  exists post,
    emitted st (connect w ri args st).2
    = [Span;
       Launch "kubectl logs"
         (Kubectl ["logs"; "-f"; pod_name ri; "--container";
                   container_name ri]);
       FindFreePort (port ssh);
       port_forward ri ssh;
       Depend ["ip"; "ifconfig"];
       GetOutput tool;
       Require ["socat"] container_text;
       Launch "socat for docker"
         (Argv ["socat";
                "TCP4-LISTEN:" +:+ PyStr.str (port ssh)
                  +:+ ",bind=172.17.0.1,reuseaddr,fork";
                "TCP4:127.0.0.1:" +:+ PyStr.str (port ssh)]);
       SshWait ssh] ++ post.
Proof.
  cbv zeta in *. split.
  - intros s.
    destruct (docker_interface_linux_run w s) as [Hr _]. cbv zeta in Hr.
    rewrite Hr. unfold address_from, first_address.
    destruct Htool as [(H1 & ->) | (H1 & H2 & ->)].
    + rewrite H1, Hout. cbn [negb].
      by destruct (Re.findall Re.ipv4 out) as [|? ?]; simplify_eq/=.
    + rewrite H1, H2, Hout. cbn [negb].
      by destruct (Re.findall Re.ipv4 out) as [|? ?]; simplify_eq/=.
  - destruct (connect w ri args st) as [r st'] eqn:H. cbn [snd].
    apply String.eqb_eq in Hmethod, Hplatform.
    unfold connect, docker_interface_linux, docker_interface_other in H.
    rewrite Hmethod, Hplatform in H. unfold_ops.
    destruct Htool as [(H1 & ->) | (H1 & H2 & ->)].
    + rewrite H1, Hout, Hsocat in H. cbn [negb] in H.
      destruct (Re.findall Re.ipv4 out) as [|first rest]; [done|].
      injection Haddr as ->.
      repeat branch; leaf; erewrite emitted_app by reflexivity;
        unfold port_forward; rewrite ?format_port_forward, ?socat_cmd_eq;
        cbn [port]; eexists; reflexivity.
    + rewrite H1, H2, Hout, Hsocat in H. cbn [negb] in H.
      destruct (Re.findall Re.ipv4 out) as [|first rest]; [done|].
      injection Haddr as ->.
      repeat branch; leaf; erewrite emitted_app by reflexivity;
        unfold port_forward; rewrite ?format_port_forward, ?socat_cmd_eq;
        cbn [port]; eexists; reflexivity.
Qed.

Lemma container_linux_relay_witness :
  exists post,
    emitted (initial 0)
      (connect linux_world pod (args_of "container") (initial 0)).2
    = [Span;
       Launch "kubectl logs"
         (Kubectl ["logs"; "-f"; "web-7d9"; "--container"; "web"]);
       FindFreePort 40000;
       Launch "kubectl port-forward"
         (Kubectl ["port-forward"; "web-7d9"; "40000:8022"]);
       Depend ["ip"; "ifconfig"];
       GetOutput ["ip"; "addr"; "show"; "dev"; "docker0"];
       Require ["socat"] container_text;
       Launch "socat for docker"
         (Argv ["socat"; "TCP4-LISTEN:40000,bind=172.17.0.1,reuseaddr,fork";
                "TCP4:127.0.0.1:40000"]);
       SshWait {| port := 40000 |}] ++ post.
Proof.
  exact (proj2 (container_linux_relay linux_world pod (args_of "container")
                  (initial 0) ip_cmd ip_addr_output
                  eq_refl eq_refl (or_introl (conj eq_refl eq_refl))
                  eq_refl eq_refl eq_refl)).
Defined.

(** * Further properties

    What follows goes beyond the sentences of the specification: it is read
    off the two modules themselves. *)

(** ** The readiness loop and [setup_torsocks] as a whole *)

(** X1.  The readiness loop of [setup_torsocks] always comes to an end,
    whatever the probes do.  It makes at least one and at most one hundred
    probes, each failed one followed by a sleep, and it ends either by
    returning after a probe that succeeded or by raising [RuntimeError]:
    no other exception leaves it.  It registers no cleanup and spawns no
    process. *)
Theorem probe_loop_bounded (w : World) (env : gmap string string)
    (st : State) :
  exists (failed : nat) (ok : bool) (st' : State),
    probe_loop w env (clock st) st
      = (if ok then Ok tt else Raise (RuntimeError msg_socks_failed), st') /\
    emitted st st'
      = round_events env failed
        ++ (if ok then [CheckCall probe_cmd (Some env)] else []) /\
    n_calls st' = (n_calls st + failed + (if ok then 1 else 0))%nat /\
    (1 <= failed + (if ok then 1 else 0) <= 100)%nat /\
    cleanups st' = cleanups st /\ n_procs st' = n_procs st.
Proof.
  destruct (probe_loop_run w env (clock st) st) as (n & Hfail & Hend).
  destruct (rounds_fields w env n st) as (T & C & _ & _ & K & P).
  destruct (after_probe_fields w env (rounds w env n st))
    as (T' & C' & K' & P').
  pose proof (busy_lower w n (n_calls st)) as Hlow.
  unfold probe_timeout, probe_interval in *.
  destruct Hend as [(Hb & Hc & Hrun) | (Hb & Hrun)].
  - exists n, true. eexists. split; [exact Hrun|].
    split; [apply emitted_app; rewrite T', T, <- app_assoc; done|].
    split; [rewrite K', K; lia|]. split; [lia|].
    by rewrite C', P', C, P.
  - exists n, false. eexists. split; [exact Hrun|].
    split; [apply emitted_app; rewrite T, app_nil_r; done|].
    split; [rewrite K; lia|]. split; [|done].
    assert (n <> 0)%nat by (intros ->; cbn in Hb; lia).
    destruct (Hfail (n - 1)%nat ltac:(lia)) as [_ Hlast].
    pose proof (busy_lower w (n - 1) (n_calls st)) as Hlow'.
    unfold probe_interval in Hlow'. lia.
Qed.

Lemma loop_then_ret w (penv : gmap string string) S0 env' :
  ((start ← time; probe_loop w penv start ;; mret penv) S0).1 = Ok env' ->
  env' = penv.
Proof.
  unfold mbind, M_bind, time. cbv beta iota.
  destruct (probe_loop w penv (clock S0) S0) as [[[]|e] S1]; cbn; congruence.
Qed.

(** The environment [setup_torsocks] hands back. *)
Lemma setup_torsocks_env w env socks unsup st env' :
  (setup_torsocks w env socks unsup st).1 = Ok env' ->
  let env1 :=
    match w_logfile w with
    | Some name =>
        <["TORSOCKS_LOG_FILE_PATH" := name]>
          (<["TORSOCKS_CONF_FILE" := torsocks_conf w]> env)
    | None => <["TORSOCKS_CONF_FILE" := torsocks_conf w]> env
    end in
  if String.eqb (w_platform w) "darwin" then
    exists existing,
      env !! "PATH" = Some existing /\
      env' = <["PATH" := PyStr.join ":"
                 (unsup :: w_make_temp w "sip_bin" ::
                  filter (fun p => p ∉ protected)
                    (PyStr.split ":" existing))]> env1
  else env' = env1.
Proof.
  cbv zeta. unfold setup_torsocks.
  set (env1 := match w_logfile w with Some _ => _ | None => _ end).
  assert (Hpath : env1 !! "PATH" = env !! "PATH").
  { subst env1. unfold torsocks_conf. destruct (w_logfile w); by simplify_map_eq. }
  rewrite (bind_ok _ _ _ _ _ (emit_add_events _ st)). cbv beta.
  destruct (String.eqb (w_platform w) "darwin").
  - unfold getitem. rewrite Hpath.
    destruct (env !! "PATH") as [existing|] eqn:He.
    + erewrite (bind_ok (mret existing ≫= _))
        by (erewrite bind_ok by reflexivity; cbv beta;
            erewrite bind_ok by apply sip_workaround_run; reflexivity).
      intros H%loop_then_ret. exists existing. done.
    + erewrite (bind_raise (raise _ ≫= _))
        by (apply bind_raise; reflexivity).
      cbn. done.
  - rewrite (bind_ok (mret env1) _ _ env1 _ eq_refl).
    intros H%loop_then_ret. done.
Qed.

Lemma loop_then_ret_full w (penv : gmap string string) S0 :
  let r := (start ← time; probe_loop w penv start ;; mret penv) S0 in
  exists (n : nat) (ok : bool),
    r.1 = (if ok then Ok penv else Raise (RuntimeError msg_socks_failed)) /\
    trace r.2
      = trace S0 ++ round_events penv n
        ++ (if ok then [CheckCall probe_cmd (Some penv)] else []) /\
    cleanups r.2 = cleanups S0 /\ n_procs r.2 = n_procs S0 /\
    n_ports r.2 = n_ports S0.
Proof.
  cbv zeta. unfold mbind, M_bind, time. cbv beta iota.
  destruct (probe_loop_run w penv (clock S0) S0) as (n & _ & Hend).
  destruct (rounds_fields w penv n S0) as (T & C & _ & NP & _ & P).
  destruct (after_probe_fields w penv (rounds w penv n S0))
    as (T' & C' & _ & P').
  assert (NP' : n_ports (after_probe w penv (rounds w penv n S0))
                = n_ports (rounds w penv n S0))
    by (unfold after_probe, check_call;
        destruct (w_check_call w (n_calls (rounds w penv n S0)) probe_cmd);
        reflexivity).
  destruct Hend as [(_ & _ & Hrun) | (_ & Hrun)]; rewrite Hrun;
    unfold mret, M_ret; cbn [fst snd].
  - exists n, true. rewrite T', T, C', P', NP', C, P, NP, <- app_assoc. done.
  - exists n, false. rewrite T, C, P, NP, app_nil_r. done.
Qed.

(** The whole of [setup_torsocks], told from its trace. *)
Lemma setup_torsocks_full w env socks unsup st :
  let r := setup_torsocks w env socks unsup st in
  let mid :=
    if String.eqb (w_platform w) "darwin" then sip_events w else [] in
  cleanups r.2 = cleanups st /\ n_procs r.2 = n_procs st /\
  n_ports r.2 = n_ports st /\
  ((exists (penv : gmap string string) (n : nat) (ok : bool),
      r.1 = (if ok then Ok penv
             else Raise (RuntimeError msg_socks_failed)) /\
      trace r.2
        = trace st ++ torsocks_conf_write w socks :: mid
          ++ round_events penv n
          ++ (if ok then [CheckCall probe_cmd (Some penv)] else []))
   \/
   (String.eqb (w_platform w) "darwin" = true /\
    env !! "PATH" = None /\ r.1 = Raise (KeyError "PATH") /\
    trace r.2 = trace st ++ [torsocks_conf_write w socks])).
Proof.
  cbv zeta. unfold setup_torsocks.
  set (env1 := match w_logfile w with Some _ => _ | None => _ end).
  assert (Hpath : env1 !! "PATH" = env !! "PATH").
  { subst env1. destruct (w_logfile w); by simplify_map_eq. }
  rewrite (bind_ok _ _ _ _ _ (emit_add_events _ st)). cbv beta.
  fold (torsocks_conf w). fold (torsocks_conf_write w socks).
  destruct (String.eqb (w_platform w) "darwin").
  - unfold getitem. rewrite Hpath.
    destruct (env !! "PATH") as [existing|] eqn:He.
    + erewrite (bind_ok (mret existing ≫= _))
        by (erewrite bind_ok by reflexivity; cbv beta;
            erewrite bind_ok by apply sip_workaround_run; reflexivity).
      cbv beta. set (penv := <["PATH" := _]> env1).
      destruct (loop_then_ret_full w penv
                  (add_events (add_events st [torsocks_conf_write w socks])
                     (sip_events w)))
        as (n & ok & Hr & HT & HC & HP & HN). cbv zeta in Hr, HT, HC, HP, HN.
      rewrite HC, HP, HN. do 3 (split; [done|]). left.
      exists penv, n, ok. split; [exact Hr|]. rewrite HT.
      cbn [trace add_events]. by rewrite <- !app_assoc.
    + erewrite (bind_raise (raise _ ≫= _))
        by (apply bind_raise; reflexivity).
      cbn [fst snd add_events cleanups n_procs n_ports trace].
      do 3 (split; [done|]). right. done.
  - rewrite (bind_ok (mret env1) _ _ env1 _ eq_refl). cbv beta.
    destruct (loop_then_ret_full w env1
                (add_events st [torsocks_conf_write w socks]))
      as (n & ok & Hr & HT & HC & HP & HN). cbv zeta in Hr, HT, HC, HP, HN.
    rewrite HC, HP, HN. do 3 (split; [done|]). left.
    exists env1, n, ok. split; [exact Hr|]. rewrite HT.
    cbn [trace add_events]. by rewrite <- !app_assoc.
Qed.

(** ** The runs of [run_local_command] that return *)

(** Every successful run of the launcher, told from its end. *)
Lemma run_local_command_ok w ri args env_overrides socks_port ssh st p :
  (run_local_command w ri args env_overrides socks_port ssh st).1 = Ok p ->
  let r := run_local_command w ri args env_overrides socks_port ssh st in
  let dns := negb (String.eqb (method args) "inject-tcp") in
  let S1 := add_events st (stub_events w dns) in
  exists existing pre argv env',
    (env_overrides ∪ w_environ w) !! "PATH" = Some existing /\
    emitted st r.2
      = pre ++ [Popen argv env';
                AddCleanup "Terminate local process"
                  (TerminateIfAlive (Some p))] /\
    Forall (fun e => ~ is_spawn e) pre /\
    p = n_procs st /\
    cleanups r.2
      = cleanups st
        ++ [("Terminate local process", TerminateIfAlive (Some p))] /\
    ((method args = "inject-tcp" /\
      argv = "torsocks" :: user_command args /\
      (setup_torsocks w (launcher_env w args env_overrides existing)
         socks_port (w_make_temp w "unsup_bin") S1).1 = Ok env' /\
      exists n,
        pre = stub_events w dns ++ torsocks_conf_write w socks_port
                :: (if String.eqb (w_platform w) "darwin"
                    then sip_events w else [])
                ++ round_events env' n
                ++ [CheckCall probe_cmd (Some env')])
     \/
     (method args = "vpn-tcp" /\ method args <> "inject-tcp" /\
      argv = user_command args /\
      env' = launcher_env w args env_overrides existing /\
      w_sshuttle_ok w = true /\
      pre = stub_events w dns ++ [ConnectSshuttle ssh])).
Proof.
  cbv zeta.
  remember (run_local_command w ri args env_overrides socks_port ssh st)
    as r eqn:Hr.
  unfold run_local_command in Hr.
  rewrite (bind_ok _ _ _ _ _ (get_unsupported_tools_run w _ st)) in Hr.
  pose proof (stub_events_quiet w
                (negb (String.eqb (method args) "inject-tcp"))) as Hstub.
  apply quiet_no_spawn in Hstub.
  unfold getitem in Hr. cbv beta in Hr.
  set (env0 := <["PROMPT_COMMAND" := prompt_command (context args)]>
                 (env_overrides ∪ w_environ w)) in Hr.
  assert (Hp : env0 !! "PATH" = (env_overrides ∪ w_environ w) !! "PATH")
    by (subst env0; by rewrite lookup_insert_ne).
  rewrite <- Hp.
  destruct (env0 !! "PATH") as [existing|];
    [|rewrite (bind_raise (raise (KeyError "PATH")) _ _ _ _ eq_refl) in Hr;
      subst r; intros [=]].
  rewrite (bind_ok (mret existing) _ _ existing _ eq_refl) in Hr.
  cbv beta in Hr. fold (user_command args) in Hr.
  change (<["PATH" := _]> env0)
    with (launcher_env w args env_overrides existing) in Hr.
  destruct (String.eqb (method args) "inject-tcp") eqn:Hinj.
  - apply String.eqb_eq in Hinj.
    match type of Hr with
    | context [setup_torsocks w ?env ?q ?u] =>
        pose proof (setup_torsocks_full w env q u
                      (add_events st (stub_events w (negb true)))) as Hs;
        destruct (setup_torsocks w env q u
                    (add_events st (stub_events w (negb true))))
          as [res S2] eqn:Hrun
    end.
    cbv zeta in Hs.
    cbn [fst snd add_events trace cleanups n_calls n_procs n_ports] in Hs.
    destruct Hs as (HC & HP & _ & Hs).
    destruct res as [env'|e];
      [|erewrite bind_raise in Hr
          by (erewrite bind_raise by exact Hrun; reflexivity);
        subst r; intros [=]].
    erewrite bind_ok in Hr
      by (erewrite bind_ok by exact Hrun; apply fmap_ok; reflexivity).
    cbv beta in Hr. erewrite bind_ok in Hr by reflexivity.
    cbv beta iota in Hr. unfold mret, M_ret in Hr.
    subst r. cbn [fst snd trace cleanups]. intros [= <-].
    destruct Hs as [(penv & n & ok & Hres & HT) | (_ & _ & [=] & _)].
    destruct ok; [injection Hres as <-|discriminate Hres].
    set (mid := if String.eqb (w_platform w) "darwin"
                then sip_events w else []) in *.
    assert (Hmid : Forall (fun e => ~ is_spawn e) mid).
    { subst mid. destruct (String.eqb (w_platform w) "darwin"); [|done].
      apply quiet_no_spawn, sip_events_quiet. }
    exists existing,
      (stub_events w (negb true) ++ torsocks_conf_write w socks_port
         :: mid ++ round_events env' n ++ [CheckCall probe_cmd (Some env')]),
      ("torsocks" :: user_command args), env'.
    split; [reflexivity|]. split.
    { apply emitted_app. cbn [trace]. rewrite HT.
      repeat (rewrite <- app_assoc || rewrite <- app_comm_cons).
      reflexivity. }
    split.
    { apply Forall_app. split; [done|]. constructor; [by intros []|].
      apply Forall_app. split; [done|].
      apply Forall_app. split; [apply round_events_no_spawn|].
      repeat constructor. by intros []. }
    split; [exact HP|]. split; [by rewrite HC, HP|]. left.
    split; [exact Hinj|]. split; [reflexivity|].
    split; [rewrite Hrun; reflexivity|].
    exists n. reflexivity.
  - destruct (String.eqb (method args) "vpn-tcp") eqn:Hvpn.
    + apply String.eqb_eq in Hvpn. apply String.eqb_neq in Hinj.
      unfold connect_sshuttle in Hr.
      destruct (w_sshuttle_ok w) eqn:Hok.
      * erewrite bind_ok in Hr
          by (erewrite bind_ok
                by (erewrite bind_ok by apply emit_add_events; reflexivity);
              apply fmap_ok; reflexivity).
        cbv beta in Hr. erewrite bind_ok in Hr by reflexivity.
        cbv beta iota in Hr. unfold mret, M_ret in Hr.
        subst r. cbn [fst snd trace cleanups add_events]. intros [= <-].
        exists existing, (stub_events w (negb false) ++ [ConnectSshuttle ssh]),
          (user_command args), (launcher_env w args env_overrides existing).
        split; [reflexivity|]. split.
        { apply emitted_app.
          repeat (rewrite <- app_assoc || rewrite <- app_comm_cons).
          reflexivity. }
        split.
        { apply Forall_app. split; [done|]. repeat constructor. by intros []. }
        split; [reflexivity|]. split; [reflexivity|]. right.
        repeat split; done.
      * erewrite bind_raise in Hr
          by (erewrite bind_raise
                by (erewrite bind_ok by apply emit_add_events; reflexivity);
              reflexivity).
        subst r. intros [=].
    + rewrite (bind_ok (mret None) _ _ None _ eq_refl) in Hr.
      cbv beta in Hr. erewrite bind_ok in Hr by reflexivity.
      cbv beta iota in Hr. subst r. intros [=].
Qed.

(** ** What the launcher spawns and registers *)

Lemma stub_events_file_ops w dns : Forall is_file_op (stub_events w dns).
Proof.
  unfold stub_events. constructor; [done|].
  apply Forall_flat_map, Forall_forall. intros c _. by repeat constructor.
Qed.

Lemma sip_events_file_ops w : Forall is_file_op (sip_events w).
Proof.
  unfold sip_events. constructor; [done|].
  apply Forall_flat_map, Forall_forall. intros d _.
  unfold copy_events. constructor; [done|].
  apply Forall_flat_map, Forall_forall. intros f _.
  destruct (w_copy_ok w _); by repeat constructor.
Qed.

Lemma round_events_loop env n : Forall is_loop_event (round_events env n).
Proof.
  unfold round_events. induction n as [|n IH]; cbn; [done|].
  by repeat constructor.
Qed.

(** X2.  When [run_local_command] returns a process, the spawn of that
    process and the registration of the cleanup [Terminate local process]
    for that very process are the last two steps of the run, in this
    order.  Nothing else is spawned and no other cleanup is registered, so
    the handle returned is the one the cleanup will terminate. *)
Theorem launcher_registers_spawned_process (w : World) (ri : RemoteInfo)
    (args : Args) (env_overrides : gmap string string) (socks_port : N)
    (ssh : SSH) (st : State) (p : Process)
    (Hok : (run_local_command w ri args env_overrides socks_port ssh st).1
           = Ok p) :
  let r := run_local_command w ri args env_overrides socks_port ssh st in
  let registration :=
    ("Terminate local process", TerminateIfAlive (Some p)) in
  exists pre argv env,
    emitted st r.2
      = pre ++ [Popen argv env;
                AddCleanup registration.1 registration.2] /\
    Forall (fun e => ~ is_spawn e /\ ~ is_add_cleanup e) pre /\
    p = n_procs st /\
    cleanups r.2 = cleanups st ++ [registration].
Proof.
  cbv zeta.
  destruct (run_local_command_ok _ _ _ _ _ _ _ _ Hok)
    as (existing & pre & argv & env' & _ & Htr & Hpre & Hp & Hc & Hcase).
  exists pre, argv, env'. repeat split; try done.
  assert (Hfile : forall l, Forall is_file_op l ->
            Forall (fun e => ~ is_spawn e /\ ~ is_add_cleanup e) l).
  { intros l Hl. eapply Forall_impl; [exact Hl|].
    intros [] He; (done || (split; intros [])). }
  destruct Hcase as [(_ & _ & _ & n & ->) | (_ & _ & _ & _ & _ & ->)].
  - apply Forall_app. split; [apply Hfile, stub_events_file_ops|].
    constructor; [by split; intros []|]. apply Forall_app. split.
    { destruct (String.eqb (w_platform w) "darwin"); [|done].
      apply Hfile, sip_events_file_ops. }
    apply Forall_app. split.
    { eapply Forall_impl; [apply round_events_loop|].
      intros [] He; (done || (split; intros [])). }
    repeat constructor; by intros [].
  - apply Forall_app. split; [apply Hfile, stub_events_file_ops|].
    repeat constructor; by intros [].
Qed.

Lemma launcher_registers_spawned_process_witness :
  cleanups
    (run_local_command linux_world pod (args_of "inject-tcp") ∅ 40001
       {| port := 40000 |} (initial 0)).2
  = [("Terminate local process", TerminateIfAlive (Some 0%nat))].
Proof.
  destruct (launcher_registers_spawned_process linux_world pod
              (args_of "inject-tcp") ∅ 40001 {| port := 40000 |}
              (initial 0) 0%nat)
    as (pre & argv & env & _ & _ & _ & Hc).
  - vm_compute. reflexivity.
  - exact Hc.
Defined.



(** ** The environment of the spawned process *)

Lemma round_events_member env n e :
  e ∈ round_events env n ->
  e = CheckCall probe_cmd (Some env) \/ e = Sleep probe_interval.
Proof.
  unfold round_events. induction n as [|n IH]; cbn; [by intros ?%elem_of_nil|].
  intros [-> | [-> | H]%elem_of_cons]%elem_of_cons; auto.
Qed.

Lemma setup_torsocks_lookups w env socks_port unsup st env' :
  (setup_torsocks w env socks_port unsup st).1 = Ok env' ->
  env' !! "TORSOCKS_CONF_FILE" = Some (torsocks_conf w) /\
  env' !! "TORSOCKS_LOG_FILE_PATH"
    = match w_logfile w with
      | Some name => Some name
      | None => env !! "TORSOCKS_LOG_FILE_PATH"
      end /\
  (forall k, k <> "TORSOCKS_CONF_FILE" -> k <> "TORSOCKS_LOG_FILE_PATH" ->
             k <> "PATH" -> env' !! k = env !! k) /\
  (w_platform w <> "darwin" -> env' !! "PATH" = env !! "PATH").
Proof.
  intros Hok. pose proof (setup_torsocks_env _ _ _ _ _ _ Hok) as Henv.
  cbv zeta in Henv.
  destruct (String.eqb (w_platform w) "darwin") eqn:Hd.
  - destruct Henv as (existing & He & ->).
    apply String.eqb_eq in Hd.
    destruct (w_logfile w);
      (split; [by simplify_map_eq|]); (split; [by simplify_map_eq|]);
      (split; [intros k ? ? ?; by simplify_map_eq | done]).
  - subst env'.
    destruct (w_logfile w);
      (split; [by simplify_map_eq|]); (split; [by simplify_map_eq|]);
      (split; [intros k ? ? ?; by simplify_map_eq
              | intros _; by simplify_map_eq]).
Qed.

(** X4.  When [setup_torsocks] returns, the environment it leaves has
    TORSOCKS_CONF_FILE set to [tel_torsocks.conf] in the runner's
    temporary directory, a file the run has written with the configuration
    for the given port; TORSOCKS_LOG_FILE_PATH is the name of the log file
    when the log goes to a file, and is left alone when it goes to the
    standard output; every other variable but PATH is unchanged, and so is
    PATH off darwin.  Every command the run has called is the probe, run
    in just that final environment. *)
Theorem setup_torsocks_environment (w : World) (env : gmap string string)
    (socks_port : N) (unsup : string) (st : State)
    (env' : gmap string string)
    (Hok : (setup_torsocks w env socks_port unsup st).1 = Ok env') :
  let r := setup_torsocks w env socks_port unsup st in
  env' !! "TORSOCKS_CONF_FILE" = Some (torsocks_conf w) /\
  torsocks_conf_write w socks_port ∈ emitted st r.2 /\
  env' !! "TORSOCKS_LOG_FILE_PATH"
    = match w_logfile w with
      | Some name => Some name
      | None => env !! "TORSOCKS_LOG_FILE_PATH"
      end /\
  (forall k, k <> "TORSOCKS_CONF_FILE" -> k <> "TORSOCKS_LOG_FILE_PATH" ->
             k <> "PATH" -> env' !! k = env !! k) /\
  (w_platform w <> "darwin" -> env' !! "PATH" = env !! "PATH") /\
  (forall argv e, CheckCall argv e ∈ emitted st r.2 ->
                  argv = probe_cmd /\ e = Some env').
Proof.
  cbv zeta. pose proof Hok as Hok0.
  destruct (setup_torsocks_full w env socks_port unsup st)
    as (_ & _ & _ & Hfull). cbv zeta in Hfull.
  destruct Hfull as [(penv & n & ok & Hres & HT) | (_ & _ & Hres & _)];
    [|rewrite Hres in Hok; discriminate].
  rewrite Hres in Hok. destruct ok; [injection Hok as ->|discriminate].
  rewrite (emitted_app _ _ _ HT).
  destruct (setup_torsocks_lookups _ _ _ _ _ _ Hok0) as (H1 & H2 & H3 & H4).
  split; [exact H1|]. split; [apply elem_of_cons; by left|].
  split; [exact H2|]. split; [exact H3|]. split; [exact H4|].
  intros argv e [[=] | Hin]%elem_of_cons.
  apply elem_of_app in Hin as [Hin | Hin].
  { exfalso. destruct (String.eqb (w_platform w) "darwin");
      [|by apply elem_of_nil in Hin].
    pose proof (sip_events_file_ops w) as Hf.
    rewrite Forall_forall in Hf. exact (Hf _ Hin). }
  apply elem_of_app in Hin as [Hin | Hin].
  - apply round_events_member in Hin as [[= -> ->] | [=]]. done.
  - apply list_elem_of_singleton in Hin as [= -> ->]. done.
Qed.

Lemma setup_torsocks_environment_witness :
  (<["TORSOCKS_LOG_FILE_PATH" := "/home/dev/telepresence.log"]>
     (<["TORSOCKS_CONF_FILE" := "/tmp/tel-x/tel_torsocks.conf"]>
        (w_environ linux_world)) : gmap string string)
    !! "TORSOCKS_CONF_FILE"
  = Some "/tmp/tel-x/tel_torsocks.conf".
Proof.
  refine (proj1 (setup_torsocks_environment linux_world
                   (w_environ linux_world) 40001 "/tmp/tel-x/unsup_bin"
                   (initial 0) _ _)).
  vm_compute. reflexivity.
Defined.

Lemma prompt_command_eq ctx :
  prompt_command ctx
  = "PS1=" +:+ dq +:+ "@" +:+ ctx +:+ "|$PS1" +:+ dq
    +:+ ";unset PROMPT_COMMAND".
Proof. reflexivity. Qed.

Lemma lookup_overrides (overrides environ : gmap string string) k :
  (overrides ∪ environ) !! k
  = match overrides !! k with
    | Some v => Some v
    | None => environ !! k
    end.
Proof.
  rewrite lookup_union.
  by destruct (overrides !! k), (environ !! k).
Qed.

Lemma launcher_env_lookup w args overrides existing k :
  k <> "PATH" -> k <> "PROMPT_COMMAND" ->
  launcher_env w args overrides existing !! k
  = (overrides ∪ w_environ w) !! k.
Proof. intros ? ?. unfold launcher_env. by simplify_map_eq. Qed.

(** X5.  The process [run_local_command] spawns gets PROMPT_COMMAND set
    to the line that puts the context into PS1 and then unsets itself.
    For every variable other than PATH, PROMPT_COMMAND and the two
    TORSOCKS ones its environment has the override when there is one and
    the value of [os.environ] otherwise.  The command is wrapped in
    torsocks exactly when the method is inject-tcp. *)
Theorem spawned_environment (w : World) (ri : RemoteInfo) (args : Args)
    (env_overrides : gmap string string) (socks_port : N) (ssh : SSH)
    (st : State) (p : Process)
    (Hok : (run_local_command w ri args env_overrides socks_port ssh st).1
           = Ok p) :
  let r := run_local_command w ri args env_overrides socks_port ssh st in
  exists argv env,
    Popen argv env ∈ emitted st r.2 /\
    argv = (if String.eqb (method args) "inject-tcp"
            then "torsocks" :: user_command args
            else user_command args) /\
    env !! "PROMPT_COMMAND"
      = Some ("PS1=" +:+ dq +:+ "@" +:+ context args +:+ "|$PS1" +:+ dq
              +:+ ";unset PROMPT_COMMAND") /\
    (forall k,
       k <> "PATH" -> k <> "PROMPT_COMMAND" ->
       k <> "TORSOCKS_CONF_FILE" -> k <> "TORSOCKS_LOG_FILE_PATH" ->
       env !! k = match env_overrides !! k with
                  | Some v => Some v
                  | None => w_environ w !! k
                  end).
Proof.
  cbv zeta.
  destruct (run_local_command_ok _ _ _ _ _ _ _ _ Hok)
    as (existing & pre & argv & env' & _ & Htr & _ & _ & _ & Hcase).
  exists argv, env'. split.
  { rewrite Htr. apply elem_of_app. right. apply elem_of_cons. by left. }
  destruct Hcase as [(Hm & -> & Hset & _) | (_ & Hm & -> & -> & _)].
  - apply String.eqb_eq in Hm. rewrite Hm. split; [done|].
    destruct (setup_torsocks_lookups _ _ _ _ _ _ Hset)
      as (_ & _ & Hother & _).
    split.
    + rewrite Hother by done. unfold launcher_env.
      rewrite lookup_insert_ne, lookup_insert_eq by done.
      by rewrite prompt_command_eq.
    + intros k ? ? ? ?. rewrite Hother by done.
      rewrite launcher_env_lookup by done. apply lookup_overrides.
  - apply String.eqb_neq in Hm. rewrite Hm. split; [done|]. split.
    + unfold launcher_env.
      rewrite lookup_insert_ne, lookup_insert_eq by done.
      by rewrite prompt_command_eq.
    + intros k ? ? ? ?.
      rewrite launcher_env_lookup by done. apply lookup_overrides.
Qed.

Lemma spawned_environment_witness :
  exists argv env,
    Popen argv env ∈
      emitted (initial 0)
        (run_local_command linux_world pod (args_of "inject-tcp") ∅ 40001
           {| port := 40000 |} (initial 0)).2 /\
    argv = "torsocks" :: user_command (args_of "inject-tcp").
Proof.
  destruct (spawned_environment linux_world pod (args_of "inject-tcp") ∅
              40001 {| port := 40000 |} (initial 0) 0%nat)
    as (argv & env & Hin & Hargv & _).
  - vm_compute. reflexivity.
  - exists argv, env. split; [exact Hin | exact Hargv].
Defined.

(** ** The search path of the spawned process *)

Lemma split_prefix unsup rest :
  mentions ":" unsup = false ->
  PyStr.split ":" (unsup +:+ ":" +:+ rest) = unsup :: PyStr.split ":" rest.
Proof. intros H. by apply (split_append ":"). Qed.

Lemma join_cons2 sep x y l :
  PyStr.join sep (x :: y :: l) = x +:+ sep +:+ PyStr.join sep (y :: l).
Proof. reflexivity. Qed.

(** X6.  Provided the name of the stub directory holds no colon, the
    PATH of the spawned process starts with the stub directory, so the
    stubs shadow the tools of the system.  Under vpn-tcp, and on every
    platform other than darwin, the PATH is the stub directory, a colon
    and the PATH the launcher found. *)
Theorem spawned_search_path (w : World) (ri : RemoteInfo) (args : Args)
    (env_overrides : gmap string string) (socks_port : N) (ssh : SSH)
    (st : State) (p : Process)
    (Hok : (run_local_command w ri args env_overrides socks_port ssh st).1
           = Ok p)
    (Hunsup : mentions ":" (w_make_temp w "unsup_bin") = false) :
  let r := run_local_command w ri args env_overrides socks_port ssh st in
  let unsup := w_make_temp w "unsup_bin" in
  exists existing argv env path,
    (env_overrides ∪ w_environ w) !! "PATH" = Some existing /\
    Popen argv env ∈ emitted st r.2 /\
    env !! "PATH" = Some path /\
    head (PyStr.split ":" path) = Some unsup /\
    (method args = "vpn-tcp" \/ w_platform w <> "darwin" ->
     path = unsup +:+ ":" +:+ existing).
Proof.
  cbv zeta.
  destruct (run_local_command_ok _ _ _ _ _ _ _ _ Hok)
    as (existing & pre & argv & env' & Hex & Htr & _ & _ & _ & Hcase).
  assert (Hin : Popen argv env' ∈
                  emitted st (run_local_command w ri args env_overrides
                                socks_port ssh st).2).
  { rewrite Htr. apply elem_of_app. right. apply elem_of_cons. by left. }
  assert (Hbase : launcher_env w args env_overrides existing !! "PATH"
                  = Some (w_make_temp w "unsup_bin" +:+ ":" +:+ existing))
    by (unfold launcher_env; by rewrite lookup_insert_eq).
  destruct Hcase as [(Hm & _ & Hset & _) | (Hm & _ & _ & -> & _)].
  - pose proof (setup_torsocks_env _ _ _ _ _ _ Hset) as Henv.
    cbv zeta in Henv.
    destruct (String.eqb (w_platform w) "darwin") eqn:Hd.
    + destruct Henv as (existing' & He & ->).
      eexists existing, argv, _, _. split; [done|]. split; [exact Hin|].
      split; [by rewrite lookup_insert_eq|]. split.
      * rewrite join_cons2, split_prefix by done. done.
      * apply String.eqb_eq in Hd. intros [Hv | Hnd]; [|done].
        rewrite Hm in Hv. discriminate.
    + destruct (setup_torsocks_lookups _ _ _ _ _ _ Hset)
        as (_ & _ & _ & Hpath).
      apply String.eqb_neq in Hd. specialize (Hpath Hd).
      rewrite Hbase in Hpath.
      eexists existing, argv, env', _. split; [done|]. split; [exact Hin|].
      split; [exact Hpath|]. split; [|done].
      by rewrite split_prefix.
  - eexists existing, argv, _, _. split; [done|]. split; [exact Hin|].
    split; [exact Hbase|]. split; [|done]. by rewrite split_prefix.
Qed.

Lemma spawned_search_path_witness :
  exists argv env,
    Popen argv env ∈
      emitted (initial 0)
        (run_local_command linux_world pod (args_of "vpn-tcp") ∅ 40001
           {| port := 40000 |} (initial 0)).2 /\
    exists path, env !! "PATH" = Some path /\
                 head (PyStr.split ":" path) = Some "/tmp/tel-x/unsup_bin".
Proof.
  destruct (spawned_search_path linux_world pod (args_of "vpn-tcp") ∅
              40001 {| port := 40000 |} (initial 0) 0%nat)
    as (existing & argv & env & path & _ & Hin & Hpath & Hhead & _).
  - vm_compute. reflexivity.
  - vm_compute. reflexivity.
  - exists argv, env. split; [exact Hin|]. exists path.
    split; [exact Hpath | exact Hhead].
Defined.

(** X7.  On darwin under inject-tcp, with temporary directories whose
    names hold no colon and are not themselves protected, the PATH of the
    spawned process is: the stub directory, the directory of the copies,
    the stub directory a second time, then the entries of the PATH the
    launcher found that are not protected, in their order.  No entry of it
    is a protected directory. *)
Theorem darwin_search_path (w : World) (ri : RemoteInfo) (args : Args)
    (env_overrides : gmap string string) (socks_port : N) (ssh : SSH)
    (st : State) (p : Process)
    (Hok : (run_local_command w ri args env_overrides socks_port ssh st).1
           = Ok p)
    (Hmethod : method args = "inject-tcp")
    (Hdarwin : w_platform w = "darwin")
    (Hunsup : mentions ":" (w_make_temp w "unsup_bin") = false)
    (Hbin : mentions ":" (w_make_temp w "sip_bin") = false)
    (Hunsup_free : w_make_temp w "unsup_bin" ∉ protected)
    (Hbin_free : w_make_temp w "sip_bin" ∉ protected) :
  let r := run_local_command w ri args env_overrides socks_port ssh st in
  let unsup := w_make_temp w "unsup_bin" in
  exists existing argv env path,
    (env_overrides ∪ w_environ w) !! "PATH" = Some existing /\
    Popen argv env ∈ emitted st r.2 /\
    env !! "PATH" = Some path /\
    PyStr.split ":" path
      = unsup :: w_make_temp w "sip_bin" :: unsup ::
        filter (fun q => q ∉ protected) (PyStr.split ":" existing) /\
    (forall q, q ∈ PyStr.split ":" path -> q ∉ protected).
Proof.
  cbv zeta.
  destruct (run_local_command_ok _ _ _ _ _ _ _ _ Hok)
    as (existing & pre & argv & env' & Hex & Htr & _ & _ & _ & Hcase).
  assert (Hin : Popen argv env' ∈
                  emitted st (run_local_command w ri args env_overrides
                                socks_port ssh st).2).
  { rewrite Htr. apply elem_of_app. right. apply elem_of_cons. by left. }
  destruct Hcase as [(_ & _ & Hset & _) | (_ & Hne & _)]; [|done].
  pose proof (setup_torsocks_env _ _ _ _ _ _ Hset) as Henv.
  cbv zeta in Henv. apply String.eqb_eq in Hdarwin. rewrite Hdarwin in Henv.
  destruct Henv as (existing' & He & ->).
  unfold launcher_env in He. rewrite lookup_insert_eq in He.
  injection He as <-.
  eexists existing, argv, _, _. split; [done|]. split; [exact Hin|].
  split; [by rewrite lookup_insert_eq|].
  rewrite (split_prefix (w_make_temp w "unsup_bin") existing) by done.
  rewrite filter_cons_True by done.
  rewrite (split_join ":"); [|done|].
  - split; [reflexivity|]. intros q Hq.
    repeat (apply elem_of_cons in Hq as [-> | Hq]; [done|]).
    by apply list_elem_of_filter in Hq as [Hq _].
  - repeat (constructor; [done|]).
    apply Forall_forall. intros q [_ Hq]%list_elem_of_filter.
    pose proof (split_fields ":" existing) as Hf.
    rewrite Forall_forall in Hf. by apply Hf.
Qed.

Lemma darwin_search_path_witness :
  exists argv env,
    Popen argv env ∈
      emitted (initial 0)
        (run_local_command mac_world pod (args_of "inject-tcp") ∅ 40001
           {| port := 40000 |} (initial 0)).2 /\
    exists path, env !! "PATH" = Some path /\
                 forall q, q ∈ PyStr.split ":" path -> q ∉ protected.
Proof.
  destruct (darwin_search_path mac_world pod (args_of "inject-tcp") ∅
              40001 {| port := 40000 |} (initial 0) 0%nat)
    as (existing & argv & env & path & _ & Hin & Hpath & _ & Hfree).
  - vm_compute. reflexivity.
  - reflexivity.
  - reflexivity.
  - vm_compute. reflexivity.
  - vm_compute. reflexivity.
  - intros H. apply protected_members in H. vm_compute in H.
    intuition discriminate.
  - intros H. apply protected_members in H. vm_compute in H.
    intuition discriminate.
  - exists argv, env. split; [exact Hin|]. exists path.
    split; [exact Hpath | exact Hfree].
Defined.

Lemma split_nonempty c s : PyStr.split c s <> [].
Proof.
  destruct s as [|x s]; [done|]. cbn.
  by destruct (PyStr.ascii_eqb x c), (PyStr.split c s).
Qed.

Lemma join_split c s :
  PyStr.join (String c EmptyString) (PyStr.split c s) = s.
Proof.
  induction s as [|x s IH]; [done|]. cbn [PyStr.split].
  destruct (PyStr.ascii_eqb x c) eqn:Hx.
  - apply Ascii.eqb_eq in Hx as ->.
    destruct (PyStr.split c s) as [|f fs] eqn:Hs.
    + by apply split_nonempty in Hs.
    + rewrite join_cons2, IH. done.
  - destruct (PyStr.split c s) as [|f fs] eqn:Hs.
    + by apply split_nonempty in Hs.
    + rewrite <- IH. by destruct fs.
Qed.

Lemma filter_all {A : Type} (P : A -> Prop) `{forall x, Decision (P x)}
    (l : list A) :
  Forall P l -> filter P l = l.
Proof.
  induction 1 as [|x l Hx Hl IH]; [done|].
  rewrite filter_cons_True by done. by rewrite IH.
Qed.

(** X8.  When no entry of the PATH it is given is a protected directory,
    [sip_workaround] returns that PATH unchanged behind the stub directory
    and the directory of the copies: splitting on colons and joining again
    loses nothing, empty entries included. *)
Theorem sip_workaround_passthrough (w : World)
    (existing_paths unsupported_tools_path : string) (st : State)
    (Hfree : forall p, p ∈ PyStr.split ":" existing_paths ->
                       p ∉ protected) :
  (sip_workaround w existing_paths unsupported_tools_path st).1
  = Ok (unsupported_tools_path +:+ ":" +:+ w_make_temp w "sip_bin"
        +:+ ":" +:+ existing_paths).
Proof.
  rewrite sip_workaround_run. cbn [fst].
  rewrite filter_all by (by apply Forall_forall).
  pose proof (split_nonempty ":" existing_paths) as Hne.
  destruct (PyStr.split ":" existing_paths) as [|f fs] eqn:Hs; [done|].
  rewrite !join_cons2, <- Hs. by rewrite (join_split ":").
Qed.

Lemma sip_workaround_passthrough_witness :
  (sip_workaround mac_world "/usr/local/bin::/opt/bin" "/tmp/u"
     (initial 0)).1
  = Ok "/tmp/u:/tmp/tel-x/sip_bin:/usr/local/bin::/opt/bin".
Proof.
  apply (sip_workaround_passthrough mac_world "/usr/local/bin::/opt/bin"
           "/tmp/u" (initial 0)).
  intros p Hp. apply list_elem_of_In in Hp. cbn in Hp.
  rewrite protected_members.
  destruct Hp as [<- | [<- | [<- | []]]];
    intros [H | [H | [H | H]]]; discriminate.
Defined.

(** ** The shape of a binding; the copies of [sip_workaround] *)

Lemma match_plus_spec cls k s n :
  Re.match_plus cls k s = Some n ->
  exists a rest m,
    s = a +:+ rest /\ a <> EmptyString /\ all_chars cls a = true /\
    k rest = Some m /\ n = (String.length a + m)%nat.
Proof.
  revert n. induction s as [|c s IH]; intros n; [done|].
  cbn [Re.match_plus]. destruct (cls c) eqn:Hc; [|done].
  destruct (Re.match_plus cls k s) as [n'|] eqn:Hplus.
  - intros [= <-].
    destruct (IH n' eq_refl) as (a & rest & m & -> & _ & Ha & Hk & ->).
    exists (String c a), rest, m. repeat split; try done.
    cbn. by rewrite Hc, Ha.
  - destruct (k s) as [m|] eqn:Hk; [|done]. intros [= <-].
    exists (String c EmptyString), s, m. repeat split; try done.
    cbn. by rewrite Hc.
Qed.

Lemma match_one_spec cls k s n :
  Re.match_one cls k s = Some n ->
  exists c rest m,
    s = String c rest /\ cls c = true /\ k rest = Some m /\ n = S m.
Proof.
  destruct s as [|c s]; [done|]. cbn.
  destruct (cls c) eqn:Hc; [|done].
  destruct (k s) as [m|] eqn:Hk; [|done]. intros [= <-].
  by exists c, s, m.
Qed.

Lemma take_append a r m :
  Re.take (String.length a + m) (a +:+ r) = a +:+ Re.take m r.
Proof.
  induction a as [|c a IH]; [done|].
  change (String c a +:+ r) with (String c (a +:+ r)).
  cbn [String.length Nat.add Re.take]. rewrite IH. done.
Qed.

Lemma take_zero r : Re.take 0 r = EmptyString.
Proof. by destruct r. Qed.

Lemma dot_is_dot c : Re.dot c = true -> c = "."%char.
Proof. unfold Re.dot. apply Ascii.eqb_eq. Qed.

Lemma digit_decimal c : Re.digit c = true -> decimal c = true.
Proof.
  destruct c as [[] [] [] [] [] [] [] []]; vm_compute; intros H;
    first [reflexivity | discriminate H].
Qed.

Lemma all_chars_impl (P Q : ascii -> bool) s :
  (forall c, P c = true -> Q c = true) ->
  all_chars P s = true -> all_chars Q s = true.
Proof.
  intros HPQ. induction s as [|c s IH]; [done|]. cbn [all_chars].
  intros [Hc Hs]%andb_true_iff. by rewrite (HPQ c Hc), (IH Hs).
Qed.

Lemma match_here_ipv4 s n :
  Re.match_here Re.ipv4 s = Some n -> dotted_quad (Re.take n s).
Proof.
  unfold Re.ipv4. cbn [Re.match_here]. intros H.
  apply match_plus_spec in H as (a & r1 & m1 & -> & Ha & Ha' & H & ->).
  apply match_one_spec in H as (c1 & r2 & m2 & -> & ->%dot_is_dot & H & ->).
  apply match_plus_spec in H as (b & r3 & m3 & -> & Hb & Hb' & H & ->).
  apply match_one_spec in H as (c2 & r4 & m4 & -> & ->%dot_is_dot & H & ->).
  apply match_plus_spec in H as (c & r5 & m5 & -> & Hc & Hc' & H & ->).
  apply match_one_spec in H as (c3 & r6 & m6 & -> & ->%dot_is_dot & H & ->).
  apply match_plus_spec in H as (d & r7 & m7 & -> & Hd & Hd' & [= <-] & ->).
  exists a, b, c, d. split.
  - rewrite take_append. cbn [Re.take].
    rewrite take_append. cbn [Re.take].
    rewrite take_append. cbn [Re.take].
    rewrite take_append, take_zero, append_empty. done.
  - repeat split; try done;
      by eapply all_chars_impl; [apply digit_decimal|].
Qed.

Lemma findall_from_matches pat s : forall skip tok,
  tok ∈ Re.findall_from pat skip s ->
  exists s' n, Re.match_here pat s' = Some n /\ tok = Re.take n s'.
Proof.
  induction s as [|c s IH]; intros skip tok; [by intros ?%elem_of_nil|].
  cbn [Re.findall_from]. destruct skip as [|skip]; [|apply IH].
  destruct (Re.match_here pat (String c s)) as [[|n]|] eqn:Hm;
    [apply IH| |apply IH].
  intros [-> | Hin]%elem_of_cons; [|by eapply IH].
  by exists (String c s), (S n).
Qed.

Lemma findall_ipv4_dotted text tok :
  tok ∈ Re.findall Re.ipv4 text -> dotted_quad tok.
Proof.
  intros (s' & n & Hm & ->)%findall_from_matches.
  by apply match_here_ipv4.
Qed.

(** X9.  When what the tools print is ASCII text, every binding the Linux
    branch of the container method yields is four non-empty runs of the
    characters 0 to 9 separated by three dots.  (Nothing in the code
    bounds a run by 255.  On other text Python's [\d] also takes the
    decimal digits of other scripts, of which the model does not speak:
    hence the condition.) *)
Theorem docker_interface_is_dotted_quad (w : World) (st : State)
    (addr : string)
    (Hascii : forall argv out,
       w_get_output w argv = Some out -> ascii_text out = true)
    (Hok : (docker_interface_linux w st).1 = Ok addr) :
  dotted_quad addr.
Proof.
  destruct (docker_interface_linux_run w st) as [Hr _]. cbv zeta in Hr.
  rewrite Hr in Hok. clear Hr.
  assert (Hfrom : forall argv, address_from w argv = Ok addr ->
                               dotted_quad addr).
  { intros argv. unfold address_from, first_address.
    destruct (w_get_output w argv) as [out|]; [|done].
    destruct (Re.findall Re.ipv4 out) as [|first rest] eqn:Hf; [done|].
    intros [= ->]. apply (findall_ipv4_dotted out). rewrite Hf.
    apply elem_of_cons. by left. }
  destruct (negb (PyStr.mem "ip" _)); [by eapply Hfrom|].
  destruct (negb (PyStr.mem "ifconfig" _)); [by eapply Hfrom|done].
Qed.

Lemma docker_interface_is_dotted_quad_witness : dotted_quad "172.17.0.1".
Proof.
  apply (docker_interface_is_dotted_quad linux_world (initial 0)).
  - intros argv out. cbn [w_get_output linux_world].
    destruct (decide (argv = ip_cmd)); [|discriminate].
    intros [= <-]. vm_compute. reflexivity.
  - vm_compute. reflexivity.
Defined.

Lemma count_events_app f l1 l2 :
  count_events f (l1 ++ l2) = (count_events f l1 + count_events f l2)%nat.
Proof. induction l1 as [|e l1 IH]; [done|]. cbn. rewrite IH. lia. Qed.

Lemma copy_events_lists w d d' :
  count_events (lists d) (copy_events w d')
  = if String.eqb d' d then 1%nat else 0%nat.
Proof.
  unfold copy_events. cbn [count_events lists].
  match goal with
  | |- context [flat_map ?g (w_listdir w d')] => set (step := g)
  end.
  assert (H0 : count_events (lists d) (flat_map step (w_listdir w d'))
               = 0%nat).
  { induction (w_listdir w d') as [|f fs IH]; [done|].
    cbn [flat_map]. rewrite count_events_app, IH.
    subst step. cbv beta zeta. by destruct (w_copy_ok w _). }
  rewrite H0. by destruct (String.eqb d' d).
Qed.

Lemma sip_events_lists w d :
  NoDup (w_protected_order w) ->
  count_events (lists d) (sip_events w)
  = if decide (d ∈ w_protected_order w) then 1%nat else 0%nat.
Proof.
  unfold sip_events. cbn [count_events lists Nat.add].
  induction (w_protected_order w) as [|d' ds IH]; intros Hnd.
  - destruct (decide (d ∈ [])) as [Hin | _]; [|done].
    by apply elem_of_nil in Hin.
  - apply NoDup_cons in Hnd as [Hd' Hnd]. cbn [flat_map].
    rewrite count_events_app, copy_events_lists, (IH Hnd).
    destruct (String.eqb_spec d' d) as [-> | Hne];
      destruct (decide (d ∈ ds)) as [Hin | Hout]; try done.
    + destruct (decide (d ∈ d :: ds)) as [_ | Hn]; [done|].
      exfalso. apply Hn, elem_of_cons. by left.
    + destruct (decide (d ∈ d' :: ds)) as [_ | Hn]; [done|].
      exfalso. apply Hn, elem_of_cons. by right.
    + destruct (decide (d ∈ d' :: ds)) as [Hin | _]; [|done].
      apply elem_of_cons in Hin as [-> | Hin]; done.
Qed.

Lemma copy_events_filters w d :
  List.filter is_copy (copy_events w d) = copies_of w d /\
  List.filter is_chmod (copy_events w d) = chmods_of w d.
Proof.
  unfold copy_events, copies_of, chmods_of.
  cbn [List.filter is_copy is_chmod].
  match goal with
  | |- context [flat_map ?g (w_listdir w d)] => set (step := g)
  end.
  induction (w_listdir w d) as [|f fs [IH1 IH2]]; [done|].
  cbn [flat_map map List.filter]. rewrite !List.filter_app, IH1, IH2.
  subst step. cbv beta zeta.
  by destruct (w_copy_ok w (PyStr.path_join d f)).
Qed.

Lemma sip_events_filters w :
  List.filter is_copy (sip_events w)
    = flat_map (copies_of w) (w_protected_order w) /\
  List.filter is_chmod (sip_events w)
    = flat_map (chmods_of w) (w_protected_order w).
Proof.
  unfold sip_events. cbn [List.filter is_copy is_chmod].
  induction (w_protected_order w) as [|d ds [IH1 IH2]]; [done|].
  cbn [flat_map]. rewrite !List.filter_app, IH1, IH2.
  by destruct (copy_events_filters w d) as [-> ->].
Qed.

(** X10.  Given that the iteration over the set [protected] visits each
    of its members once, [sip_workaround] lists the four protected
    directories, each once, and no other directory.  For each directory
    it attempts one copy per file of the listing, in the order of the
    listing and into the one temporary directory, whatever became of the
    copies before it: a copy that fails with [IOError] is passed over and
    the next file is tried.  The files whose mode it changes, to 0o775
    and under their name in the temporary directory, are those whose copy
    went through, in the same order. *)
Theorem sip_workaround_copy_attempts (w : World)
    (existing_paths unsupported_tools_path : string) (st : State)
    (Honce : NoDup (w_protected_order w))
    (Hall : forall d, d ∈ w_protected_order w <-> d ∈ protected) :
  let r := sip_workaround w existing_paths unsupported_tools_path st in
  let tr := emitted st r.2 in
  (forall d, count_events (lists d) tr
             = if decide (d ∈ protected) then 1%nat else 0%nat) /\
  List.filter is_copy tr = flat_map (copies_of w) (w_protected_order w) /\
  List.filter is_chmod tr = flat_map (chmods_of w) (w_protected_order w).
Proof.
  cbv zeta. rewrite sip_workaround_run. cbn [fst snd].
  rewrite (emitted_app st _ (sip_events w)) by reflexivity.
  split; [|apply sip_events_filters].
  intros d. rewrite (sip_events_lists w d Honce).
  destruct (decide (d ∈ w_protected_order w)) as [Hin | Hout].
  - destruct (decide (d ∈ protected)) as [_ | Hn]; [done|].
    exfalso. by apply Hn, Hall.
  - destruct (decide (d ∈ protected)) as [Hp | _]; [|done].
    exfalso. by apply Hout, Hall.
Qed.

Lemma sip_workaround_copy_attempts_witness :
  List.filter is_chmod
    (emitted (initial 0)
       (sip_workaround mac_world "/usr/bin:/opt/bin" "/tmp/tel-x/unsup_bin"
          (initial 0)).2)
  = [Chmod "/tmp/tel-x/sip_bin/sh" mode_0o775].
Proof.
  destruct (sip_workaround_copy_attempts mac_world "/usr/bin:/opt/bin"
              "/tmp/tel-x/unsup_bin" (initial 0)) as (_ & _ & Hc).
  - cbn [w_protected_order mac_world].
    repeat (apply NoDup_cons; split;
            [rewrite ?elem_of_cons, elem_of_nil; intuition discriminate|]).
    apply NoDup_nil_2.
  - intros d. rewrite protected_members. cbn [w_protected_order mac_world].
    rewrite !elem_of_cons, elem_of_nil. tauto.
  - exact Hc.
Defined.

(** ** [connect]: the local machine, the span, the loopback alias *)

Ltac unfold_ops_in H :=
  cbv [mbind M_bind mret M_ret fmap M_fmap raise emit guard_ok launch depend
       require require_sudo get_output check_call add_cleanup ssh_wait
       expose_local_services find_free_port] in H;
  cbn [trace cleanups clock n_ports n_calls n_procs fst snd port] in H.

Ltac branch_in H :=
  match type of H with
  | context [if ?c then _ else _] => destruct c eqn:?
  | context [match ?c with Some _ => _ | None => _ end] => destruct c eqn:?
  | context [match ?c with [] => _ | _ :: _ => _ end] => destruct c eqn:?
  end;
  cbn [trace cleanups clock n_ports n_calls n_procs fst snd port negb] in H.

Ltac leaf_in H :=
  injection H as <- <-;
  cbn [trace cleanups clock n_ports n_calls n_procs fst snd port];
  rewrite <- ?app_assoc; cbn [app].

Ltac exec_connect H :=
  unfold connect, docker_interface_linux, docker_interface_other in H;
  unfold_ops_in H; repeat branch_in H; leaf_in H;
  try erewrite emitted_app by reflexivity.

(** X11.  For every method but container, [connect] looks at nothing on
    the local machine: it checks no dependency, asks for no sudo, runs no
    command to completion and registers no cleanup, and the clock of the
    model does not move.  It returns the SOCKS port, the second port
    taken, with the SSH handle exactly when the SSH server answers and
    the exposure of the local services returns; it raises the error of
    [ssh.wait] in the first case of failure and that of
    [expose_local_services] in the second. *)
Theorem connect_other_methods_need_no_tool (w : World) (ri : RemoteInfo)
    (args : Args) (st : State)
    (Hmethod : method args <> "container") :
  let r := connect w ri args st in
  let ssh := {| port := w_free_port w (n_ports st) |} in
  r.1 = (if w_ssh_wait w ssh then
           if w_expose_ok w then Ok (w_free_port w (S (n_ports st)), ssh)
           else Raise (ExternalFailure "expose_local_services")
         else Raise SshUnreachable) /\
  Forall (fun e => is_local_check e = false) (emitted st r.2) /\
  cleanups r.2 = cleanups st /\
  n_calls r.2 = n_calls st /\
  clock r.2 = clock st.
Proof.
  cbv zeta. apply String.eqb_neq in Hmethod.
  destruct (connect w ri args st) as [r st'] eqn:H. cbn [fst snd].
  unfold connect in H. rewrite Hmethod in H. cbn [negb] in H.
  exec_connect H.
  all: repeat split; try reflexivity.
  all: repeat constructor.
Qed.

Lemma connect_other_methods_need_no_tool_witness :
  cleanups (connect linux_world pod (args_of "vpn-tcp") (initial 0)).2 = [].
Proof.
  destruct (connect_other_methods_need_no_tool linux_world pod
              (args_of "vpn-tcp") (initial 0)) as (_ & _ & Hc & _).
  - discriminate.
  - exact Hc.
Defined.

(** X12.  Every run of [connect] opens its span first.  The span is
    ended exactly when [connect] returns, and then as the last step: a run
    that raises leaves the span open, the code having no [finally]. *)
Theorem connect_span_ends_on_success (w : World) (ri : RemoteInfo)
    (args : Args) (st : State) :
  let r := connect w ri args st in
  let tr := emitted st r.2 in
  head tr = Some Span /\
  (SpanEnd ∈ tr <-> exists v, r.1 = Ok v) /\
  (forall v, r.1 = Ok v -> last tr = Some SpanEnd).
Proof.
  cbv zeta. destruct (connect w ri args st) as [r st'] eqn:H. cbn [fst snd].
  exec_connect H.
  all: split; [reflexivity|].
  all: split; [|first [intros v [=]; fail | intros; reflexivity]].
  all: rewrite list_elem_of_In; cbn [In]; split;
    [ first [ intros _; eexists; reflexivity
            | intros Hin; exfalso; intuition discriminate ]
    | first [ intros [v [=]]; fail
            | intros _; repeat (first [left; reflexivity | right]) ] ].
Qed.

(** X13.  [connect] asks for the lo0 alias exactly when the method is
    container, the platform is not linux, ifconfig is there and sudo is
    to be had; this is the only command it runs to completion.  The
    cleanup [Mac Loopback], which removes the alias, is registered
    exactly when that command has succeeded, and it is the only cleanup of
    the run.  It stays registered when the run goes on to fail, for want
    of socat or of an answer from the SSH server. *)
Theorem connect_loopback_cleanup (w : World) (ri : RemoteInfo) (args : Args)
    (st : State) :
  let r := connect w ri args st in
  let tr := emitted st r.2 in
  let aliased :=
    alias_attempted w args && w_check_call w (n_calls st) (loopback_alias w) in
  (CheckCall (loopback_alias w) None ∈ tr <-> alias_attempted w args = true) /\
  n_calls r.2
    = (n_calls st + (if alias_attempted w args then 1 else 0))%nat /\
  cleanups r.2
    = cleanups st ++
      (if aliased
       then [("Mac Loopback", CleanupCheckCall (loopback_unalias w))]
       else []) /\
  (AddCleanup "Mac Loopback" (CleanupCheckCall (loopback_unalias w)) ∈ tr
   <-> aliased = true).
Proof.
  cbv zeta. unfold alias_attempted, loopback_alias, loopback_unalias.
  destruct (connect w ri args st) as [r st'] eqn:H. cbn [fst snd].
  exec_connect H.
  all: repeat match goal with
              | Hb : _ = true |- _ => rewrite Hb; clear Hb
              | Hb : _ = false |- _ => rewrite Hb; clear Hb
              end.
  all: cbn [andb]; rewrite ?app_nil_r, ?Nat.add_0_r, ?Nat.add_1_r.
  all: rewrite !list_elem_of_In; cbn [In].
  all: repeat split; try reflexivity; try discriminate.
  all: try solve [intros Hin; exfalso; intuition discriminate].
  all: try solve [intros _; repeat (first [left; reflexivity | right])].
Qed.

(** X14.  Method container off Linux, with ifconfig, sudo and socat at
    hand and the alias command succeeding: after its first four steps
    [connect] requires ifconfig, asks for sudo, adds the alias of
    [MAC_LOOPBACK_IP] to lo0, registers its removal, requires socat and
    launches it listening on the SSH local port at [MAC_LOOPBACK_IP] and
    forwarding to the same port on 127.0.0.1, and only then waits for
    SSH. *)
Theorem connect_loopback_relay (w : World) (ri : RemoteInfo) (args : Args)
    (st : State)
    (Hmethod : method args = "container")
    (Hplatform : w_platform w <> "linux")
    (Hifconfig : w_require w ["ifconfig"] = true)
    (Hsudo : w_require_sudo w = true)
    (Halias : w_check_call w (n_calls st) (loopback_alias w) = true)
    (Hsocat : w_require w ["socat"] = true) :
  let ssh := {| port := w_free_port w (n_ports st) |} in
  exists post,
    emitted st (connect w ri args st).2
    = connect_head ri ssh ++
      [Require ["ifconfig"] container_text;
       RequireSudo;
       CheckCall (loopback_alias w) None;
       AddCleanup "Mac Loopback" (CleanupCheckCall (loopback_unalias w));
       Require ["socat"] container_text;
       Launch "socat for docker"
         (Argv ["socat";
                "TCP4-LISTEN:" +:+ PyStr.str (port ssh) +:+ ",bind="
                  +:+ w_mac_loopback_ip w +:+ ",reuseaddr,fork";
                "TCP4:127.0.0.1:" +:+ PyStr.str (port ssh)]);
       SshWait ssh] ++ post.
Proof.
  cbv zeta. apply String.eqb_eq in Hmethod. apply String.eqb_neq in Hplatform.
  unfold loopback_alias, loopback_unalias, connect_head, port_forward in *.
  destruct (connect w ri args st) as [r st'] eqn:H. cbn [fst snd].
  unfold connect, docker_interface_other in H.
  rewrite Hmethod, Hplatform in H. cbn [negb] in H.
  unfold_ops_in H.
  repeat (first [ rewrite Hifconfig in H | rewrite Hsudo in H
                | rewrite Halias in H | rewrite Hsocat in H
                | branch_in H ];
          cbn [trace cleanups clock n_ports n_calls n_procs fst snd port]
            in H).
  all: leaf_in H.
  all: erewrite emitted_app by reflexivity.
  all: rewrite ?socat_cmd_eq, ?format_port_forward; cbn [port app].
  all: eexists; reflexivity.
Qed.

Lemma connect_loopback_relay_witness :
  exists post,
    emitted (initial 0)
      (connect mac_world pod (args_of "container") (initial 0)).2
    = connect_head pod {| port := 40000 |} ++
      [Require ["ifconfig"] container_text;
       RequireSudo;
       CheckCall (loopback_alias mac_world) None;
       AddCleanup "Mac Loopback"
         (CleanupCheckCall (loopback_unalias mac_world));
       Require ["socat"] container_text;
       Launch "socat for docker"
         (Argv ["socat";
                "TCP4-LISTEN:40000,bind=198.18.0.254,reuseaddr,fork";
                "TCP4:127.0.0.1:40000"]);
       SshWait {| port := 40000 |}] ++ post.
Proof.
  apply (connect_loopback_relay mac_world pod (args_of "container")
           (initial 0)).
  - reflexivity.
  - discriminate.
  - reflexivity.
  - reflexivity.
  - reflexivity.
  - reflexivity.
Defined.

(** X15.  Method container without socat: [connect] raises in every
    case.  It never launches the relay and never waits for SSH, and it
    takes no port beyond the one of the SSH handle.  When the run gets as
    far as requiring socat, that is its last step and the error is the
    missing dependency on socat. *)
Theorem connect_container_needs_socat (w : World) (ri : RemoteInfo)
    (args : Args) (st : State)
    (Hmethod : method args = "container")
    (Hsocat : w_require w ["socat"] = false) :
  let r := connect w ri args st in
  let tr := emitted st r.2 in
  (exists e, r.1 = Raise e) /\
  (Require ["socat"] container_text ∈ tr ->
   r.1 = Raise (MissingDependency ["socat"]) /\
   last tr = Some (Require ["socat"] container_text)) /\
  Forall (fun e => is_ssh_wait e = false /\ is_socat_launch e = false) tr /\
  n_ports r.2 = S (n_ports st).
Proof.
  cbv zeta. apply String.eqb_eq in Hmethod.
  destruct (connect w ri args st) as [r st'] eqn:H. cbn [fst snd].
  unfold connect in H. rewrite Hmethod in H. cbn [negb] in H.
  unfold docker_interface_linux, docker_interface_other in H.
  unfold_ops_in H. rewrite ?Hsocat in H.
  repeat (branch_in H; rewrite ?Hsocat in H;
          cbn [trace cleanups clock n_ports n_calls n_procs fst snd port]
            in H).
  all: leaf_in H; erewrite emitted_app by reflexivity.
  all: split; [by eexists|].
  all: split;
    [ rewrite list_elem_of_In; cbn [In];
      first [ intros _; split; reflexivity
            | intros Hin; exfalso; intuition discriminate ] |].
  all: split; [|reflexivity].
  all: repeat constructor.
Qed.

Lemma connect_container_needs_socat_witness :
  (connect no_socat_world pod (args_of "container") (initial 0)).1
  = Raise (MissingDependency ["socat"]).
Proof.
  destruct (connect_container_needs_socat no_socat_world pod
              (args_of "container") (initial 0)) as (_ & Hr & _).
  - reflexivity.
  - reflexivity.
  - apply Hr. apply list_elem_of_In. vm_compute.
    repeat (first [left; reflexivity | right]).
Defined.

(** ** [connect] and [run_local_command] together *)

Lemma torsocks_config_eq p :
  PyStr.format_ TORSOCKS_CONFIG [PyStr.str p] = torsocks_config_text p.
Proof. reflexivity. Qed.

Lemma connect_ok_forwarding w ri args st socks ssh :
  (connect w ri args st).1 = Ok (socks, ssh) ->
  exists lsp, forwarding ssh socks lsp ∈ emitted st (connect w ri args st).2.
Proof.
  unfold forwarding.
  destruct (connect w ri args st) as [r st'] eqn:H. cbn [fst snd].
  exec_connect H.
  all: intros [=]; subst.
  all: rewrite forward_args_eq; eexists; apply list_elem_of_In; cbn [In].
  all: repeat (first [left; reflexivity | right]).
Qed.

(** X16.  [connect] followed by [run_local_command].  When the port and
    the handle that [connect] has returned are given to an inject-tcp
    launch that returns, the port of the forward leg [-L127.0.0.1:port:]
    of the SSH command, the [TorPort] written to the torsocks
    configuration file and the file named by TORSOCKS_CONF_FILE in the
    environment of the spawned [torsocks] command all agree: torsocks is
    pointed at the tunnel. *)
Theorem torsocks_points_at_tunnel (w : World) (ri : RemoteInfo) (args : Args)
    (env_overrides : gmap string string) (st : State) (socks_port : N)
    (ssh : SSH) (p : Process)
    (Hconnect : (connect w ri args st).1 = Ok (socks_port, ssh))
    (Hmethod : method args = "inject-tcp")
    (Hrun : (run_local_command w ri args env_overrides socks_port ssh
               (connect w ri args st).2).1 = Ok p) :
  let st1 := (connect w ri args st).2 in
  let r := run_local_command w ri args env_overrides socks_port ssh st1 in
  (exists local_server_port,
     forwarding ssh socks_port local_server_port ∈ emitted st st1) /\
  WriteFile (torsocks_conf w) (torsocks_config_text socks_port)
    ∈ emitted st1 r.2 /\
  exists env,
    Popen ("torsocks" :: user_command args) env ∈ emitted st1 r.2 /\
    env !! "TORSOCKS_CONF_FILE" = Some (torsocks_conf w).
Proof.
  cbv zeta. split; [by apply connect_ok_forwarding|].
  destruct (run_local_command_ok _ _ _ _ _ _ _ _ Hrun)
    as (existing & pre & argv & env' & _ & Htr & _ & _ & _ & Hcase).
  destruct Hcase as [(_ & -> & Hset & n & ->) | (_ & Hne & _)]; [|done].
  rewrite Htr. split.
  - apply elem_of_app. left. apply elem_of_app. right.
    apply elem_of_cons. left. unfold torsocks_conf_write.
    by rewrite torsocks_config_eq.
  - exists env'. split.
    + apply elem_of_app. right. apply elem_of_cons. by left.
    + by destruct (setup_torsocks_lookups _ _ _ _ _ _ Hset) as (H1 & _).
Qed.

Lemma torsocks_points_at_tunnel_witness :
  WriteFile "/tmp/tel-x/tel_torsocks.conf" (torsocks_config_text 40001)
    ∈ emitted
        (connect linux_world pod (args_of "inject-tcp") (initial 0)).2
        (run_local_command linux_world pod (args_of "inject-tcp") ∅ 40001
           {| port := 40000 |}
           (connect linux_world pod (args_of "inject-tcp") (initial 0)).2).2.
Proof.
  destruct (torsocks_points_at_tunnel linux_world pod (args_of "inject-tcp")
              ∅ (initial 0) 40001 {| port := 40000 |} 0%nat)
    as (_ & Hw & _).
  - vm_compute. reflexivity.
  - reflexivity.
  - vm_compute. reflexivity.
  - exact Hw.
Defined.
